(** * simple-photo-meta: the IPTC adapter of [exiv2_bindings.cpp]

    A shallow embedding of the class [Exiv2Bind] (getIptcTag, setIptcTag,
    to_dict, from_dict) and of the table [humanToRawKey], with the
    properties of the human-label / raw-key translation proved about it.

    The Exiv2 library is a collaborator of the program, not part of it.
    Its container [Exiv2::IptcData] is a [std::vector<Iptcdatum>] kept in
    storage order; what the program uses of it ([findKey], [erase], [add],
    iteration) is embedded below as list functions.  Four facts about
    IPTC keys that only the library's tables know are parameters of the
    development: which strings [Exiv2::IptcKey] accepts, how the library
    itself spells the key that an accepted string names, which data sets
    may repeat, and the tag name of a key.

    A call of the adapter is a function from the adapter's state to an
    outcome, a return value or an exception, each with the state left
    behind.  The state is the image's record set in memory, the record set
    in the file, and the number of writes to the file.  The Python values
    that cross the boundary are those of the interface: a document maps
    section names to sections, a section maps labels to a string or a list
    of strings. *)

From Stdlib Require Import String Ascii List Bool Arith Lia.
From Stdlib Require Import Sorted OrdersEx.
From stdpp Require Import base list strings.
Import ListNotations.

Local Open Scope string_scope.
Local Open Scope list_scope.

(** ** Data *)

(** [Exiv2::Iptcdatum]: one raw record.  [key] is the dotted raw identifier
    as the library reports it ([it->key()]), and [toString] the record's
    value rendered as a string ([it->toString()]). *)
Record Iptcdatum : Type := Datum { key : string; toString : string }.

(** [Exiv2::IptcData], a vector of records in storage order. *)
Abbreviation IptcData := (list Iptcdatum).

(** The adapter owns one image ([image_]).  [iptcData] is the image's
    in-memory record set ([image_->iptcData()]), [file] the record set
    last put into the file, [writes] the number of [writeMetadata()] calls
    carried out so far. *)
Record Exiv2Bind : Type := Image
  { iptcData : IptcData; file : IptcData; writes : nat }.

(** [py::object] values of a section: a string or a list of strings. *)
Inductive pyobject : Type :=
| PyStr (s : string)
| PyList (l : list string).

(** [std::map<std::string, V>] by its entries in traversal order, and
    [std::set<std::string>] by its elements in traversal order. *)
Abbreviation stdmap V := (list (string * V)).
Abbreviation stdset := (list string).

(** The exception [Exiv2::Error] raised for a key the library rejects. *)
Inductive exception : Type :=
| Exiv2Error (k : string).

(** ** Containers of the C++ standard library *)

(** [m.find(k)]: the value stored under [k], if any. *)
Fixpoint map_find {V} (k : string) (m : stdmap V) : option V :=
  match m with
  | [] => None
  | (k', v) :: m' => if String.eqb k' k then Some v else map_find k m'
  end.

(** [m[k] = v]: replaces the value under [k] or inserts the entry at its
    place in key order. *)
Fixpoint map_assign {V} (k : string) (v : V) (m : stdmap V) : stdmap V :=
  match m with
  | [] => [(k, v)]
  | (k', v') :: m' =>
      match String.compare k k' with
      | Eq => (k', v) :: m'
      | Lt => (k, v) :: m
      | Gt => (k', v') :: map_assign k v m'
      end
  end.

(** [s.insert(x)]: the set with [x] at its place in order, and whether [x]
    was new ([.second]). *)
Fixpoint set_insert (x : string) (s : stdset) : stdset * bool :=
  match s with
  | [] => ([x], true)
  | y :: s' =>
      match String.compare x y with
      | Eq => (s, false)
      | Lt => (x :: s, true)
      | Gt => let (t, fresh) := set_insert x s' in (y :: t, fresh)
      end
  end.

(** ** The tag dictionary *)

Definition humanToRawKey : stdmap string :=
  [ ("Caption", "Iptc.Application2.Caption");
    ("Keywords", "Iptc.Application2.Keywords");
    ("By-line", "Iptc.Application2.Byline");
    ("By-lineTitle", "Iptc.Application2.BylineTitle");
    ("DateCreated", "Iptc.Application2.DateCreated");
    ("ObjectName", "Iptc.Application2.ObjectName");
    ("Credit", "Iptc.Application2.Credit");
    ("Source", "Iptc.Application2.Source");
    ("CopyrightNotice", "Iptc.Application2.CopyrightNotice");
    ("Headline", "Iptc.Application2.Headline");
    ("SpecialInstructions", "Iptc.Application2.SpecialInstructions");
    ("Category", "Iptc.Application2.Category");
    ("SupplementalCategories", "Iptc.Application2.SupplementalCategories");
    ("Urgency", "Iptc.Application2.Urgency");
    ("City", "Iptc.Application2.City");
    ("Province-State", "Iptc.Application2.Province-State");
    ("Country-PrimaryLocationName",
     "Iptc.Application2.Country-PrimaryLocationName");
    ("OriginalTransmissionReference",
     "Iptc.Application2.OriginalTransmissionReference") ].

(** ** Computations of the adapter: state and exceptions *)

Inductive outcome (A : Type) : Type :=
| Returned (a : A) (st : Exiv2Bind)
| Thrown (e : exception) (st : Exiv2Bind).
Arguments Returned {A} a st.
Arguments Thrown {A} e st.

Definition M (A : Type) : Type := Exiv2Bind -> outcome A.

Definition ret {A} (a : A) : M A := fun st => Returned a st.

Definition throw {A} (e : exception) : M A := fun st => Thrown e st.

Definition bind {A B} (c : M A) (f : A -> M B) : M B :=
  fun st =>
    match c st with
    | Returned a st' => f a st'
    | Thrown e st' => Thrown e st'
    end.

Declare Scope adapter_scope.
Delimit Scope adapter_scope with adapter.
Notation "'let!' x ':=' c 'in' k" := (bind c (fun x => k))
  (at level 10, x name, c at level 100, k at level 200) : adapter_scope.
Notation "c ';;' k" := (bind c (fun _ => k))
  (at level 100, k at level 200, right associativity) : adapter_scope.
Local Open Scope adapter_scope.

(** A range-for loop whose body may throw. *)
Fixpoint for_each {A} (l : list A) (body : A -> M unit) : M unit :=
  match l with
  | [] => ret tt
  | x :: l' => body x ;; for_each l' body
  end.

(** The adapter with [data] as the image's record set in memory. *)
Definition with_iptcData (data : IptcData) (st : Exiv2Bind) : Exiv2Bind :=
  {| iptcData := data; file := file st; writes := writes st |}.

(** [image_->iptcData()] read, and an in-place change of the record set
    through the reference it returns. *)
Definition get_iptcData : M IptcData := fun st => Returned (iptcData st) st.

Definition update_iptcData (f : IptcData -> IptcData) : M unit :=
  fun st => Returned tt (with_iptcData (f (iptcData st)) st).

(** [image_->setIptcData(data)], and [image_->writeMetadata()], which puts
    the record set in memory into the file. *)
Definition setIptcData (data : IptcData) : M unit :=
  fun st => Returned tt (with_iptcData data st).

Definition writeMetadata : M unit :=
  fun st =>
    Returned tt
      {| iptcData := iptcData st; file := iptcData st;
         writes := S (writes st) |}.

(** ** The adapter *)

Section Adapter.

(** What the program takes from the library's data-set tables:
    - [validKey k]: [Exiv2::IptcKey(k)] accepts the string [k] (it throws
      otherwise);
    - [spelling k]: [IptcKey(k).key()], the key that [k] names in the
      library's own spelling.  The constructor keeps the record and the
      data-set number that [k] names, and [key()] is built from these two,
      so that a data set given by number comes back by name;
    - [repeatable k]: the data set of the key spelled [k] may occur more
      than once ([IptcData::add] refuses a second record of one that may
      not);
    - [tagName k]: [tagName()] of the key spelled [k]. *)
Variable validKey : string -> bool.
Variable spelling : string -> string.
Variable repeatable : string -> bool.
Variable tagName : string -> string.

(** [Exiv2::IptcKey iptcKey(k)].  The key object is the record and the
    data-set number; it is held here as the library's spelling of them,
    which is what [iptcKey.key()] and the [key()] of a record made from it
    return.  The string [k] the caller gave is not kept. *)
Definition IptcKey (k : string) : M string :=
  if validKey k then ret (spelling k) else throw (Exiv2Error k).

(** [data.findKey(iptcKey)]: the position of the first record with the
    record and data-set number of [iptcKey], that is with its spelling as
    [key()]; [length data] (that is [data.end()]) when there is none. *)
Fixpoint findKey (iptcKey : string) (data : IptcData) : nat :=
  match data with
  | [] => 0
  | md :: rest =>
      if String.eqb (key md) iptcKey then 0 else S (findKey iptcKey rest)
  end.

(** [data.add(datum)]: appends, unless the data set is not repeatable and
    a record of it is present (the library then returns 6, which the
    program does not look at). *)
Definition add (datum : Iptcdatum) (data : IptcData) : IptcData :=
  if negb (repeatable (key datum))
     && existsb (fun md => String.eqb (key md) (key datum)) data
  then data
  else data ++ [datum].

(** [while (it != data.end() && it->key() == k) it = data.erase(it);]
    [erase] removes the record at [it] and returns the position of the
    next one, which is [it] again.  Every turn removes a record, so
    [length data] turns are enough. *)
Fixpoint erase_while (turns : nat) (k : string) (it : nat)
    (data : IptcData) : IptcData :=
  match turns with
  | 0 => data
  | S turns' =>
      match data !! it with
      | Some md =>
          if String.eqb (key md) k
          then erase_while turns' k it (delete it data)
          else data
      | None => data
      end
  end.

(** [auto it = data.findKey(iptcKey); while (...) it = data.erase(it);]
    The search is by the key object, the test of the loop by the string
    [k] that the caller (or the dictionary) gave. *)
Definition erase_matching (iptcKey k : string) (data : IptcData) : IptcData :=
  erase_while (length data) k (findKey iptcKey data) data.

(** [getIptcTag] *)
Definition getIptcTag (k : string) : M string :=
  let! data := get_iptcData in
  let! iptcKey := IptcKey k in
  let pos := findKey iptcKey data in
  ret (match data !! pos with
       | Some md => toString md
       | None => ""
       end).

(** [setIptcTag] *)
Definition setIptcTag (k value : string) : M unit :=
  let! iptcKey := IptcKey k in
  let datum := Datum iptcKey value in
  update_iptcData (erase_matching iptcKey k) ;;
  update_iptcData (add datum) ;;
  let! data := get_iptcData in
  setIptcData data ;;
  writeMetadata.

(** The loop of [to_dict] that gathers the values of one key: from the
    record [it] points at, while the key is [rawKey]. *)
Fixpoint collect (rawKey : string) (it : IptcData) : list string :=
  match it with
  | [] => []
  | md :: rest =>
      if String.eqb (key md) rawKey
      then toString md :: collect rawKey rest
      else []
  end.

(** The de-duplication loop of [to_dict]: [uniq] gets the values whose
    insertion into [seen] was new. *)
Fixpoint deduplicate (values : list string) (seen : stdset)
    (uniq : list string) : list string :=
  match values with
  | [] => uniq
  | v :: rest =>
      let (seen', fresh) := set_insert v seen in
      deduplicate rest seen' (if fresh then uniq ++ [v] else uniq)
  end.

(** The body of the loop over [uniqueKeys] in [to_dict]. *)
Definition to_dict_entry (data : IptcData) (rawKey : string)
    (iptc : stdmap pyobject) : M (stdmap pyobject) :=
  let! iptcKey := IptcKey rawKey in
  let label := if String.eqb (tagName iptcKey) "" then rawKey
               else tagName iptcKey in
  let values := collect rawKey (drop (findKey iptcKey data) data) in
  let uniq := deduplicate values [] [] in
  let isMulti := String.eqb label "Keywords" in
  if (1 <? length uniq)%nat || isMulti
  then ret (map_assign label (PyList uniq) iptc)
  else match uniq with
       | front :: _ => ret (map_assign label (PyStr front) iptc)
       | [] => ret iptc
       end.

Fixpoint to_dict_loop (data : IptcData) (uniqueKeys : stdset)
    (iptc : stdmap pyobject) : M (stdmap pyobject) :=
  match uniqueKeys with
  | [] => ret iptc
  | rawKey :: rest =>
      let! iptc' := to_dict_entry data rawKey iptc in
      to_dict_loop data rest iptc'
  end.

(** [to_dict] *)
Definition to_dict : M (stdmap (stdmap pyobject)) :=
  let! data := get_iptcData in
  let uniqueKeys :=
    fold_left (fun s md => fst (set_insert (key md) s)) data [] in
  let! iptc := to_dict_loop data uniqueKeys [] in
  ret [("iptc", iptc)].

(** The body of the loop over the section in [from_dict]. *)
Definition from_dict_entry (kv : string * pyobject) : M unit :=
  let label := fst kv in
  let valObj := snd kv in
  match map_find label humanToRawKey with
  | None => ret tt
  | Some rawKey =>
      let! iptcKey := IptcKey rawKey in
      update_iptcData (erase_matching iptcKey rawKey) ;;
      match valObj with
      | PyList l =>
          for_each l (fun vs => update_iptcData (add (Datum iptcKey vs)))
      | PyStr vs => update_iptcData (add (Datum iptcKey vs))
      end
  end.

(** [from_dict] *)
Definition from_dict (meta : stdmap (stdmap pyobject)) : M unit :=
  match map_find "iptc" meta with
  | None => ret tt
  | Some section =>
      for_each section from_dict_entry ;;
      let! data := get_iptcData in
      setIptcData data ;;
      writeMetadata
  end.

End Adapter.

(** ** Notions the properties are stated with *)

(** The records of identifier [k] in storage order, and the records of the
    other identifiers. *)
Definition records (k : string) (data : IptcData) : IptcData :=
  filter (λ md, key md = k) data.

Definition others (k : string) (data : IptcData) : IptcData :=
  filter (λ md, key md ≠ k) data.

(** The records from [it] on, without the run of key [k] they start with. *)
Fixpoint erase_run (k : string) (it : IptcData) : IptcData :=
  match it with
  | [] => []
  | md :: rest => if String.eqb (key md) k then erase_run k rest else it
  end.

(** The record set without the first run of records of key [k]. *)
Fixpoint erase_first_run (k : string) (data : IptcData) : IptcData :=
  match data with
  | [] => []
  | md :: rest =>
      if String.eqb (key md) k then erase_run k rest
      else md :: erase_first_run k rest
  end.

(** The records of every identifier are adjacent: once the run that a
    record starts has ended, its identifier does not come again. *)
Fixpoint contiguous (data : IptcData) : bool :=
  match data with
  | [] => true
  | md :: rest =>
      forallb (fun md' => negb (String.eqb (key md') (key md)))
        (erase_run (key md) rest)
      && contiguous rest
  end.

(** The records of identifier [k] are adjacent: without the first run of
    them the record set has none. *)
Definition adjacent (k : string) (data : IptcData) : bool :=
  forallb (fun md => negb (String.eqb (key md) k)) (erase_first_run k data).

(** The record set is in ascending order of identifier. *)
Fixpoint identifier_ordered (data : IptcData) : bool :=
  match data with
  | [] => true
  | md :: rest =>
      forallb (fun md' => String.leb (key md) (key md')) rest
      && identifier_ordered rest
  end.

(** Every stored identifier is one the library accepts and is in the
    library's own spelling, as it is for a record set that the library
    itself read from an image or filled through [add]: the [key()] of a
    record is built from its record and data-set number. *)
Definition Opened (validKey : string -> bool) (spelling : string -> string)
    (st : Exiv2Bind) : bool :=
  forallb (fun md => validKey (key md)
                     && String.eqb (spelling (key md)) (key md))
    (iptcData st).

(** The library spells the raw keys of the dictionary that it accepts the
    way the dictionary does: these name their data sets by name, and a
    name the library accepts is the one it reports. *)
Definition dictionary_spelled (validKey : string -> bool)
    (spelling : string -> string) : bool :=
  forallb (fun entry => implb (validKey (snd entry))
                          (String.eqb (spelling (snd entry)) (snd entry)))
    humanToRawKey.

(** The library accepts its own spelling of a key and reports it
    unchanged. *)
Definition own_spelling (validKey : string -> bool)
    (spelling : string -> string) : Prop :=
  forall k, validKey k = true ->
    validKey (spelling k) = true /\ spelling (spelling k) = spelling k.

(** The state a call leaves behind, however it ends. *)
Definition final_state {A} (o : outcome A) : Exiv2Bind :=
  match o with
  | Returned _ st => st
  | Thrown _ st => st
  end.

(** The label [to_dict] files a raw key under. *)
Definition label_of (tagName : string -> string) (rawKey : string) : string :=
  if String.eqb (tagName rawKey) "" then rawKey else tagName rawKey.

(** The distinct values of a list in the order of their first
    occurrences. *)
Fixpoint first_occurrences (values : list string) : list string :=
  match values with
  | [] => []
  | v :: rest => v :: filter (λ w, w ≠ v) (first_occurrences rest)
  end.

(** The values a section entry asks to store. *)
Definition values_of (valObj : pyobject) : list string :=
  match valObj with
  | PyStr vs => [vs]
  | PyList l => l
  end.

(** The effect of one recognized section entry on the record set: the
    first run of the key erased, then one [add] per value. *)
Definition replace_records (repeatable : string -> bool) (rawKey : string)
    (valObj : pyobject) (data : IptcData) : IptcData :=
  fold_left (fun d vs => add repeatable (Datum rawKey vs) d)
    (values_of valObj) (erase_first_run rawKey data).

Definition import_entry (repeatable : string -> bool) (data : IptcData)
    (kv : string * pyobject) : IptcData :=
  match map_find (fst kv) humanToRawKey with
  | Some rawKey => replace_records repeatable rawKey (snd kv) data
  | None => data
  end.


(** The values that stay stored of those added in a row to a key without
    records: all of them, or the first only when the data set may not
    repeat. *)
Definition kept (repeatable : string -> bool) (rawKey : string)
    (values : list string) : list string :=
  if repeatable rawKey then values else take 1 values.

(** How [to_dict] represents the distinct values [uniq] of a label. *)
Definition export_value (label : string) (uniq : list string)
    : option pyobject :=
  if (1 <? length uniq)%nat || String.eqb label "Keywords"
  then Some (PyList uniq)
  else match uniq with
       | front :: _ => Some (PyStr front)
       | [] => None
       end.

(** The values [to_dict] gathers for a raw key: those of the first run of
    its records. *)
Definition first_run_values (rawKey : string) (data : IptcData)
    : list string :=
  collect rawKey (drop (findKey rawKey data) data).

(** The entry [to_dict] makes for one raw key. *)
Definition export_entry (tagName : string -> string) (data : IptcData)
    (iptc : stdmap pyobject) (rawKey : string) : stdmap pyobject :=
  let label := label_of tagName rawKey in
  match export_value label (first_occurrences (first_run_values rawKey data))
  with
  | Some v => map_assign label v iptc
  | None => iptc
  end.

(** A [std::set] lists its elements in strictly ascending order. *)
Definition set_ordered (s : stdset) : Prop :=
  StronglySorted (fun a b => String.compare a b = Lt) s.

(** The labels of a section that the dictionary knows all resolve to keys
    the library accepts. *)
Definition resolvable (validKey : string -> bool)
    (section : stdmap pyobject) : bool :=
  forallb (fun kv => match map_find (fst kv) humanToRawKey with
                     | Some rawKey => validKey rawKey
                     | None => true
                     end) section.

(** The raw keys [to_dict] goes through: [uniqueKeys]. *)
Definition unique_keys (data : IptcData) : stdset :=
  fold_left (fun s md => fst (set_insert (key md) s)) data [].

(** What [to_dict] files under a label after a section entry with that
    label has been stored under [rawKey]: nothing when no value is kept. *)
Definition exported (repeatable : string -> bool) (label rawKey : string)
    (valObj : pyobject) : option pyobject :=
  match kept repeatable rawKey (values_of valObj) with
  | [] => None
  | values => export_value label (first_occurrences values)
  end.

(** No stored key but [k] is filed under the label of [k]. *)
Definition sole_key (tagName : string -> string) (k : string)
    (data : IptcData) : bool :=
  forallb (fun md => implb (String.eqb (label_of tagName (key md))
                                       (label_of tagName k))
                           (String.eqb (key md) k)) data.

(** No stored key but [k] is filed under [label]. *)
Definition sole_under (tagName : string -> string) (label k : string)
    (data : IptcData) : bool :=
  forallb (fun md => implb (String.eqb (label_of tagName (key md)) label)
                           (String.eqb (key md) k)) data.

(** The labels of a section that the dictionary knows are the labels
    [to_dict] files their keys under, and no other stored key is filed
    under them. *)
Definition faithful_labels (tagName : string -> string) (data : IptcData)
    (section : stdmap pyobject) : bool :=
  forallb (fun kv => match map_find (fst kv) humanToRawKey with
                     | Some rawKey =>
                         String.eqb (label_of tagName rawKey) (fst kv)
                         && sole_key tagName rawKey data
                     | None => true
                     end) section.

(** The value of the first record of key [k], the empty string when the
    key has no record. *)
Definition first_value (k : string) (data : IptcData) : string :=
  match records k data with
  | md :: _ => toString md
  | [] => ""
  end.

(** The raw keys of the entries of a section whose label the dictionary
    knows, and the records these entries ask for, entry after entry. *)
Definition section_keys (section : stdmap pyobject) : list string :=
  flat_map (fun kv => match map_find (fst kv) humanToRawKey with
                      | Some rawKey => [rawKey]
                      | None => []
                      end) section.

Definition section_records (repeatable : string -> bool)
    (section : stdmap pyobject) : IptcData :=
  flat_map (fun kv => match map_find (fst kv) humanToRawKey with
                      | Some rawKey =>
                          map (Datum rawKey)
                            (kept repeatable rawKey (values_of (snd kv)))
                      | None => []
                      end) section.

(** The records whose key no known entry of the section names. *)
Definition untouched (section : stdmap pyobject) (data : IptcData)
    : IptcData :=
  filter (λ md, key md ∉ section_keys section) data.

(** The value [v] stands for the distinct values [uniq] of a label the way
    [to_dict] writes them: as their list when there are several or the
    label is ["Keywords"], as the one value otherwise. *)
Definition represents (label : string) (uniq : list string) (v : pyobject)
    : Prop :=
  (v = PyList uniq /\ (1 < length uniq \/ label = "Keywords"))
  \/ (exists x, v = PyStr x /\ uniq = [x] /\ label <> "Keywords").

(** Every stored key filed under the label of [k] is [k] or comes before
    [k] in the order of [std::set]. *)
Definition last_key (tagName : string -> string) (k : string)
    (data : IptcData) : bool :=
  forallb (fun md => implb (String.eqb (label_of tagName (key md))
                                       (label_of tagName k))
                           (String.eqb (key md) k
                            || String.ltb (key md) k)) data.

(** ** A sample of the library's tables

    Instances of the four parameters, used to run the adapter on concrete
    record sets: a key is accepted when it has the three parts
    [Iptc.<record>.<data set>]; the library's spelling has the name of the
    data set where the key gives its number, for the keywords (data set 25
    of the application record) and the city (data set 90), and is the key
    as given otherwise; the tag name is the third part; and the data sets
    that may not repeat are those of the dictionary other than the
    keywords, the by-lines and the supplemental categories. *)
Module Sample.

Fixpoint parts (s : string) (part : string) : list string :=
  match s with
  | EmptyString => [part]
  | String c s' =>
      if Ascii.eqb c "."%char then part :: parts s' ""
      else parts s' (part ++ String c "")
  end.

Definition validKey (k : string) : bool :=
  match parts k "" with
  | [family; record; dataSet] =>
      String.eqb family "Iptc" && negb (String.eqb record "")
      && negb (String.eqb dataSet "")
  | _ => false
  end.

Definition spelling (k : string) : string :=
  if String.eqb k "Iptc.Application2.0x0019" then "Iptc.Application2.Keywords"
  else if String.eqb k "Iptc.Application2.0x005a" then "Iptc.Application2.City"
  else k.

Definition tagName (k : string) : string :=
  match parts k "" with
  | [_; _; dataSet] => dataSet
  | _ => ""
  end.

Definition repeatable (k : string) : bool :=
  negb (existsb (String.eqb k)
          [ "Iptc.Application2.Caption"; "Iptc.Application2.DateCreated";
            "Iptc.Application2.ObjectName"; "Iptc.Application2.Credit";
            "Iptc.Application2.Source"; "Iptc.Application2.CopyrightNotice";
            "Iptc.Application2.Headline";
            "Iptc.Application2.SpecialInstructions";
            "Iptc.Application2.Category"; "Iptc.Application2.Urgency";
            "Iptc.Application2.City"; "Iptc.Application2.Province-State";
            "Iptc.Application2.Country-PrimaryLocationName";
            "Iptc.Application2.OriginalTransmissionReference" ]).

(** Raw keys and record sets to run the adapter on. *)
Definition Keywords : string := "Iptc.Application2.Keywords".
Definition City : string := "Iptc.Application2.City".
Definition Caption : string := "Iptc.Application2.Caption".
Definition Credit : string := "Iptc.Application2.Credit".
Definition Byline : string := "Iptc.Application2.Byline".
Definition Writer : string := "Iptc.Application2.Writer".

(** An image whose file and memory hold the same records. *)
Definition image (data : IptcData) : Exiv2Bind :=
  {| iptcData := data; file := data; writes := 0 |}.

(** In order of identifier: a caption, a city, two keywords. *)
Definition ordered : IptcData :=
  [ Datum Caption "At the pier"; Datum City "Oslo"; Datum Keywords "sea";
    Datum Keywords "sky" ].

(** A city and one keyword. *)
Definition one_keyword : IptcData :=
  [ Datum City "Oslo"; Datum Keywords "sea" ].

(** Three by-lines in a row, the first and the last the same. *)
Definition bylines : IptcData :=
  [ Datum City "Oslo"; Datum Byline "Ann"; Datum Byline "Bob";
    Datum Byline "Ann"; Datum Caption "At the pier" ].

(** The keywords of an image not in one run: a city stands between them. *)
Definition interleaved : IptcData :=
  [ Datum Keywords "sea"; Datum City "Oslo"; Datum Keywords "sky" ].

(** The keywords sea, sky, sea with a city after the first. *)
Definition repeated : IptcData :=
  [ Datum Keywords "sea"; Datum City "Oslo"; Datum Keywords "sky";
    Datum Keywords "sea" ].

(** A data set without a name, of the same number in the application
    record, with the values a, b, a, and in the envelope record: the same
    tag name. *)
Definition same_name : IptcData :=
  [ Datum "Iptc.Application2.0x00f0" "a"; Datum "Iptc.Application2.0x00f0" "b";
    Datum "Iptc.Application2.0x00f0" "a"; Datum "Iptc.Envelope.0x00f0" "e" ].

(** The ordered records and one of the writer, which has no label in the
    dictionary. *)
Definition with_writer : IptcData :=
  [ Datum Caption "At the pier"; Datum City "Oslo"; Datum Keywords "sea";
    Datum Keywords "sky"; Datum Writer "me" ].

(** Keywords in three runs. *)
Definition scattered : IptcData :=
  [ Datum Keywords "sea"; Datum City "Oslo"; Datum Keywords "sky";
    Datum Credit "NTB"; Datum Keywords "pier" ].

(** The keywords and the city by the numbers of their data sets. *)
Definition Keywords_by_number : string := "Iptc.Application2.0x0019".
Definition City_by_number : string := "Iptc.Application2.0x005a".

(** Tables that accept less: the name of a data set has no hyphen. *)
Fixpoint plain (s : string) : bool :=
  match s with
  | EmptyString => true
  | String c s' => negb (Ascii.eqb c "-"%char) && plain s'
  end.

Definition strictKey (k : string) : bool := validKey k && plain (tagName k).

End Sample.

(** ** The standard containers *)

Lemma compare_Eq_eq (x y : string) : String.compare x y = Eq <-> x = y.
Proof.
  split; [apply String.compare_eq_iff | intros ->].
  induction y as [|c y IH]; simpl; [done|].
  assert (Ascii.compare c c = Eq) as ->; [|done].
  unfold Ascii.compare. by rewrite N.compare_refl.
Qed.

Lemma map_find_assign_eq {V} (k : string) (v : V) (m : stdmap V) :
  map_find k (map_assign k v m) = Some v.
Proof.
  induction m as [|[k' v'] m IH]; simpl.
  - by rewrite String.eqb_refl.
  - destruct (String.compare k k') eqn:Hc; simpl.
    + apply compare_Eq_eq in Hc as ->. by rewrite String.eqb_refl.
    + by rewrite String.eqb_refl.
    + destruct (String.eqb_spec k' k) as [->|_]; [|done].
      by rewrite (proj2 (compare_Eq_eq k k)) in Hc.
Qed.

Lemma map_find_assign_ne {V} (k k' : string) (v : V) (m : stdmap V) :
  k <> k' -> map_find k' (map_assign k v m) = map_find k' m.
Proof.
  intros Hne. induction m as [|[k0 v0] m IH]; simpl.
  - by destruct (String.eqb_spec k k').
  - destruct (String.compare k k0) eqn:Hc; simpl.
    + apply compare_Eq_eq in Hc as <-. by destruct (String.eqb_spec k k').
    + by destruct (String.eqb_spec k k').
    + by rewrite IH.
Qed.

(** [String.compare] is the strict order of [String_as_OT]. *)
Lemma compare_as_OT (x y : string) :
  String.compare x y = String_as_OT.compare x y.
Proof.
  revert y. induction x as [|a x IH]; intros [|b y]; simpl; try done.
Qed.

Lemma compare_Lt_trans (x y z : string) :
  String.compare x y = Lt -> String.compare y z = Lt ->
  String.compare x z = Lt.
Proof.
  rewrite !compare_as_OT. intros Hxy Hyz.
  exact (StrictOrder_Transitive (R := String_as_OT.lt) x y z Hxy Hyz).
Qed.

Lemma compare_Lt_ne (x y : string) : String.compare x y = Lt -> x <> y.
Proof. intros Hc ->. by rewrite (proj2 (compare_Eq_eq y y)) in Hc. Qed.

Lemma set_insert_elem (x y : string) (s : stdset) :
  y ∈ fst (set_insert x s) <-> y = x \/ y ∈ s.
Proof.
  induction s as [|z s IH]; simpl.
  - rewrite list_elem_of_singleton, elem_of_nil. tauto.
  - destruct (String.compare x z) eqn:Hc; simpl.
    + apply compare_Eq_eq in Hc as ->. rewrite !elem_of_cons. tauto.
    + by rewrite !elem_of_cons.
    + destruct (set_insert x s) as [t fresh]; simpl in *.
      rewrite !elem_of_cons, IH. tauto.
Qed.

Lemma set_insert_ordered (x : string) (s : stdset) :
  set_ordered s -> set_ordered (fst (set_insert x s)).
Proof.
  unfold set_ordered. induction 1 as [|z s Hs IH Hz]; simpl.
  - repeat constructor.
  - destruct (String.compare x z) eqn:Hc; simpl.
    + by constructor.
    + constructor; [by constructor|].
      constructor; [done|].
      eapply Forall_impl; [exact Hz|]. intros w Hw. simpl in Hw.
      by eapply compare_Lt_trans.
    + pose proof (set_insert_elem x) as Hel.
      specialize (fun w => Hel w s).
      destruct (set_insert x s) as [t fresh]; simpl in *.
      constructor; [done|].
      apply list.Forall_forall. intros w Hw.
      apply Hel in Hw.
      rewrite list.Forall_forall in Hz.
      destruct Hw as [->|Hw]; [|by apply Hz].
      rewrite String.compare_antisym, Hc. done.
Qed.

Lemma set_insert_fresh (x : string) (s : stdset) :
  set_ordered s -> snd (set_insert x s) = bool_decide (x ∉ s).
Proof.
  unfold set_ordered. induction 1 as [|z s Hs IH Hz]; simpl.
  - done.
  - rewrite list.Forall_forall in Hz.
    destruct (String.compare x z) eqn:Hc; simpl.
    + apply compare_Eq_eq in Hc as ->.
      symmetry. apply bool_decide_eq_false. rewrite elem_of_cons. tauto.
    + symmetry. apply bool_decide_eq_true.
      intros [->|Hin]%elem_of_cons.
      * by apply compare_Lt_ne in Hc.
      * apply Hz in Hin.
        by apply (compare_Lt_ne x x (compare_Lt_trans x z x Hc Hin)).
    + destruct (set_insert x s) as [t fresh]; simpl in *. rewrite IH.
      apply bool_decide_ext. rewrite elem_of_cons.
      assert (x <> z); [|tauto].
      intros ->. by rewrite (proj2 (compare_Eq_eq z z)) in Hc.
Qed.

(** ** De-duplication *)

Lemma deduplicate_from (values : list string) (seen : stdset)
    (uniq : list string) :
  set_ordered seen ->
  deduplicate values seen uniq
  = uniq ++ filter (λ w, w ∉ seen) (first_occurrences values).
Proof.
  revert seen uniq. induction values as [|v rest IH]; intros seen uniq Hs.
  - simpl. by rewrite app_nil_r.
  - simpl. pose proof (set_insert_fresh v seen Hs) as Hfresh.
    pose proof (set_insert_ordered v seen Hs) as Hord.
    pose proof (fun y => set_insert_elem v y seen) as Hel.
    destruct (set_insert v seen) as [seen' fresh]; simpl in *; subst fresh.
    rewrite IH by done. rewrite filter_cons, list_filter_filter.
    assert (filter (λ w, w ∉ seen') (first_occurrences rest)
            = filter (λ w, (w ∉ seen) ∧ w ≠ v) (first_occurrences rest)) as ->.
    { apply list_filter_iff. intros w. rewrite Hel. tauto. }
    case_bool_decide; case_decide; try done.
    by rewrite <- app_assoc.
Qed.

Lemma deduplicate_first_occurrences (values : list string) :
  deduplicate values [] [] = first_occurrences values.
Proof.
  rewrite deduplicate_from by constructor. simpl.
  induction (first_occurrences values) as [|w l IH]; [done|].
  rewrite filter_cons_True by apply not_elem_of_nil. by rewrite IH.
Qed.

(** ** The erase loop *)

Lemma erase_while_run (turns : nat) (k : string) (it : nat) (data : IptcData) :
  length data - it <= turns ->
  erase_while turns k it data = take it data ++ erase_run k (drop it data).
Proof.
  revert data. induction turns as [|turns IH]; intros data Hlen; simpl.
  - rewrite take_ge, drop_ge by lia. by rewrite app_nil_r.
  - destruct (data !! it) as [md|] eqn:Hit.
    + rewrite (drop_S _ _ _ Hit). simpl.
      apply lookup_lt_Some in Hit as Hlt.
      destruct (String.eqb (key md) k).
      * rewrite IH by (rewrite length_delete by eauto; lia).
        rewrite delete_take_drop.
        rewrite take_app_length', drop_app_length'; try done;
          rewrite length_take; lia.
      * rewrite <- (drop_S _ _ _ Hit). by rewrite take_drop.
    + apply lookup_ge_None in Hit.
      rewrite take_ge, drop_ge by lia. by rewrite app_nil_r.
Qed.

Lemma erase_matching_first_run (k : string) (data : IptcData) :
  erase_matching k k data = erase_first_run k data.
Proof.
  unfold erase_matching. rewrite erase_while_run by lia.
  induction data as [|md rest IH]; simpl; [done|].
  destruct (String.eqb (key md) k) eqn:Hk; simpl.
  - by rewrite Hk.
  - by rewrite IH.
Qed.

(** When the caller's string is not the library's spelling of the key, the
    record that [findKey] finds fails the test of the loop: nothing is
    erased. *)
Lemma erase_matching_other_spelling (iptcKey k : string) (data : IptcData) :
  iptcKey <> k -> erase_matching iptcKey k data = data.
Proof.
  intros Hne. unfold erase_matching. rewrite erase_while_run by lia.
  assert (erase_run k (drop (findKey iptcKey data) data)
          = drop (findKey iptcKey data) data) as ->; [|apply take_drop].
  induction data as [|md rest IH]; simpl; [done|].
  destruct (String.eqb_spec (key md) iptcKey) as [Hk|Hk]; simpl; [|done].
  destruct (String.eqb_spec (key md) k) as [Hk'|Hk']; [congruence|done].
Qed.

(** With [length data] turns the loop has left through its condition: no
    record of the key stands at [it] any more. *)
Lemma erase_matching_done (k : string) (data : IptcData) :
  match erase_matching k k data !! findKey k data with
  | Some md => key md <> k
  | None => True
  end.
Proof.
  unfold erase_matching. rewrite erase_while_run by lia.
  assert (findKey k data <= length data) as Hle.
  { induction data as [|md rest IH]; simpl; [lia|].
    destruct (String.eqb (key md) k); lia. }
  rewrite lookup_app_r by (rewrite length_take; lia).
  rewrite length_take, Nat.min_l, Nat.sub_diag by done.
  induction (drop (findKey k data) data) as [|md rest IH]; simpl; [done|].
  destruct (String.eqb_spec (key md) k) as [Hk|Hk]; [apply IH|done].
Qed.

Lemma records_erase_run (k k' : string) (it : IptcData) :
  k' <> k -> records k' (erase_run k it) = records k' it.
Proof.
  intros Hne. unfold records. induction it as [|md rest IH]; simpl; [done|].
  destruct (String.eqb_spec (key md) k) as [Hk|Hk]; [|done].
  rewrite IH, filter_cons_False; [done|congruence].
Qed.

Lemma records_erase_first_run (k k' : string) (data : IptcData) :
  k' <> k -> records k' (erase_first_run k data) = records k' data.
Proof.
  intros Hne. induction data as [|md rest IH]; simpl; [done|].
  destruct (String.eqb_spec (key md) k) as [Hk|Hk].
  - rewrite records_erase_run by done.
    unfold records. rewrite filter_cons_False; [done|congruence].
  - unfold records in *. by rewrite !filter_cons, IH.
Qed.

Lemma others_erase_run (k : string) (it : IptcData) :
  others k (erase_run k it) = others k it.
Proof.
  unfold others. induction it as [|md rest IH]; simpl; [done|].
  destruct (String.eqb_spec (key md) k) as [Hk|Hk]; [|done].
  rewrite IH, filter_cons_False; [done|]. by intros [].
Qed.

Lemma others_all (k : string) (data : IptcData) :
  records k data = [] -> others k data = data.
Proof.
  unfold records, others. induction data as [|md rest IH]; [done|].
  rewrite !filter_cons. destruct (decide (key md = k)) as [Hk|Hk]; [done|].
  intros Hr. rewrite decide_True by done. by rewrite IH.
Qed.

Lemma records_others (k : string) (data : IptcData) :
  records k (others k data) = [].
Proof.
  unfold records, others. induction data as [|md rest IH]; [done|].
  rewrite filter_cons. destruct (decide (key md ≠ k)) as [Hk|Hk]; [|done].
  by rewrite filter_cons_False.
Qed.

Lemma forallb_not_key (k : string) (data : IptcData) :
  forallb (fun md => negb (String.eqb (key md) k)) data = true
  <-> records k data = [].
Proof.
  unfold records. induction data as [|md rest IH]; simpl; [done|].
  rewrite filter_cons, andb_true_iff, IH.
  destruct (String.eqb_spec (key md) k) as [Hk|Hk]; simpl.
  - rewrite decide_True by done. split; [by intros []|done].
  - rewrite decide_False by done. tauto.
Qed.

(** In a record set that keeps equal identifiers adjacent, the loop erases
    every record of the key. *)
Lemma contiguous_erase_first_run (k : string) (data : IptcData) :
  contiguous data = true -> erase_first_run k data = others k data.
Proof.
  induction data as [|md rest IH]; simpl; [done|].
  rewrite andb_true_iff. intros [Hrun Hrest].
  unfold others in *. rewrite filter_cons.
  destruct (String.eqb_spec (key md) k) as [Hk|Hk].
  - subst k. rewrite decide_False by (by intros []).
    apply forallb_not_key in Hrun.
    fold (others (key md) rest).
    rewrite <- (others_erase_run (key md) rest).
    symmetry. by apply others_all.
  - rewrite decide_True by done. by rewrite IH.
Qed.

(** The same for one key whose records are adjacent. *)
Lemma adjacent_erase_first_run (k : string) (data : IptcData) :
  adjacent k data = true -> erase_first_run k data = others k data.
Proof.
  unfold adjacent. induction data as [|md rest IH]; simpl; [done|].
  unfold others in *. rewrite filter_cons.
  destruct (String.eqb_spec (key md) k) as [Hk|Hk].
  - intros Hrun%forallb_not_key. rewrite decide_False by (by intros []).
    fold (others k rest). rewrite <- (others_erase_run k rest).
    symmetry. by apply others_all.
  - simpl. rewrite decide_True by done.
    destruct (String.eqb_spec (key md) k) as [|_]; [done|]. simpl.
    intros Hrest. by rewrite IH.
Qed.

Lemma contiguous_adjacent (k : string) (data : IptcData) :
  contiguous data = true -> adjacent k data = true.
Proof.
  intros Hcont. unfold adjacent. rewrite contiguous_erase_first_run by done.
  apply forallb_not_key, records_others.
Qed.

Lemma erase_first_run_app_new (k v : string) (pre : IptcData) :
  records k pre = [] -> erase_first_run k (pre ++ [Datum k v]) = pre.
Proof.
  unfold records. induction pre as [|md pre IH]; simpl.
  - by rewrite String.eqb_refl.
  - rewrite filter_cons. destruct (String.eqb_spec (key md) k) as [Hk|Hk].
    + by rewrite decide_True.
    + rewrite decide_False by done. intros Hpre. by rewrite IH.
Qed.

Lemma adjacent_app_new (k v : string) (pre : IptcData) :
  records k pre = [] -> adjacent k (pre ++ [Datum k v]) = true.
Proof.
  intros Hpre. unfold adjacent. rewrite erase_first_run_app_new by done.
  by apply forallb_not_key.
Qed.

(** The erase loop leaves the records of every key but the one searched
    for. *)
Lemma records_erase_matching (iptcKey k k' : string) (data : IptcData) :
  k' <> iptcKey ->
  records k' (erase_matching iptcKey k data) = records k' data.
Proof.
  intros Hne. destruct (decide (iptcKey = k)) as [->|Hk].
  - by rewrite erase_matching_first_run, records_erase_first_run.
  - by rewrite erase_matching_other_spelling.
Qed.

(** ** Record sets that keep equal identifiers adjacent *)

Lemma records_nil_iff (k : string) (data : IptcData) :
  records k data = [] <-> forall md, md ∈ data -> key md <> k.
Proof.
  unfold records. split.
  - intros Hnil md Hin Hk. by apply (filter_nil_not_elem_of _ _ md Hnil).
  - intros Hall. induction data as [|md rest IH]; [done|].
    rewrite filter_cons_False by (apply Hall; left).
    apply IH. intros md' Hin. apply Hall. by right.
Qed.

Lemma elem_of_erase_run (k : string) (it : IptcData) (md : Iptcdatum) :
  md ∈ erase_run k it -> md ∈ it.
Proof.
  induction it as [|md' rest IH]; simpl; [done|].
  destruct (String.eqb (key md') k); [|done].
  intros Hin. right. by apply IH.
Qed.

Lemma elem_of_erase_run_others (k k' : string) (it : IptcData)
    (md : Iptcdatum) :
  md ∈ erase_run k' (others k it) -> md ∈ erase_run k' it.
Proof.
  unfold others. induction it as [|md' rest IH]; [done|].
  rewrite filter_cons. destruct (decide (key md' ≠ k)) as [Hk|Hk]; simpl.
  - destruct (String.eqb (key md') k'); [done|].
    rewrite !elem_of_cons, list_elem_of_filter. tauto.
  - intros Hin%IH. destruct (String.eqb (key md') k'); [done|].
    right. by apply elem_of_erase_run in Hin.
Qed.

Lemma elem_of_erase_run_app (k : string) (it news : IptcData)
    (md : Iptcdatum) :
  md ∈ erase_run k (it ++ news) -> md ∈ erase_run k it \/ md ∈ news.
Proof.
  induction it as [|md' rest IH]; simpl.
  - intros Hin%elem_of_erase_run. by right.
  - destruct (String.eqb (key md') k); [done|].
    rewrite app_comm_cons, elem_of_app. tauto.
Qed.

Lemma contiguous_others (k : string) (data : IptcData) :
  contiguous data = true -> contiguous (others k data) = true.
Proof.
  induction data as [|md rest IH]; simpl; [done|].
  rewrite andb_true_iff. intros [Hrun Hrest].
  unfold others. rewrite filter_cons.
  destruct (decide (key md ≠ k)) as [Hk|Hk]; [|by apply IH].
  simpl. rewrite andb_true_iff. split; [|by apply IH].
  rewrite forallb_not_key, records_nil_iff in *.
  intros md' Hin. by apply Hrun, (elem_of_erase_run_others k).
Qed.

Lemma contiguous_app_new (k : string) (data news : IptcData) :
  contiguous data = true -> records k data = [] ->
  (forall md, md ∈ news -> key md = k) ->
  contiguous (data ++ news) = true.
Proof.
  intros Hdata Hnone Hnews.
  induction data as [|md rest IH]; simpl.
  - clear Hdata Hnone. induction news as [|md news IH]; simpl; [done|].
    rewrite andb_true_iff. split.
    + rewrite forallb_not_key, records_nil_iff.
      assert (erase_run (key md) news = []) as ->; [|by intros ? ?%elem_of_nil].
      assert (forall md', md' ∈ news -> key md' = key md) as Hall.
      { intros md' Hin. rewrite (Hnews md), (Hnews md'); [done|by right|by left]. }
      clear IH Hnews. induction news as [|md' news IH]; simpl; [done|].
      rewrite (Hall md') by left. rewrite String.eqb_refl.
      apply IH. intros ? ?. apply Hall. by right.
    + apply IH. intros ? ?. apply Hnews. by right.
  - simpl in Hdata. rewrite andb_true_iff in *. destruct Hdata as [Hrun Hrest].
    rewrite records_nil_iff in Hnone.
    split.
    + rewrite forallb_not_key, records_nil_iff in *.
      intros md' [Hin|Hin]%elem_of_erase_run_app; [by apply Hrun|].
      rewrite (Hnews md' Hin). intros Hk. apply (Hnone md); [by left|done].
    + apply IH; [done|]. apply records_nil_iff. intros ? ?. apply Hnone. by right.
Qed.

(** [contiguous] says what its name says: between two records of one
    identifier there are only records of that identifier. *)
Lemma erase_run_split (k : string) (it : IptcData) :
  (erase_run k it = [] /\ forall md, md ∈ it -> key md = k)
  \/ exists run md rest,
       it = run ++ md :: rest /\ (forall md', md' ∈ run -> key md' = k)
       /\ key md <> k /\ erase_run k it = md :: rest.
Proof.
  induction it as [|md it IH]; simpl.
  - left. split; [done|]. by intros ? ?%elem_of_nil.
  - destruct (String.eqb_spec (key md) k) as [Hk|Hk].
    + destruct IH as [[Hnil Hall]|(run & md' & rest & -> & Hrun & Hne & Heq)].
      * left. split; [done|]. intros ? [->|?]%elem_of_cons; auto.
      * right. exists (md :: run), md', rest. repeat split; try done.
        intros ? [->|?]%elem_of_cons; auto.
    + right. exists [], md, it. repeat split; try done.
      by intros ? ?%elem_of_nil.
Qed.

Lemma contiguous_between (data : IptcData) :
  contiguous data = true
  <-> forall pre md mid md' post,
        data = pre ++ md :: mid ++ md' :: post -> key md = key md' ->
        forall m, m ∈ mid -> key m = key md.
Proof.
  split.
  - intros Hcont pre md mid md' post -> Hk.
    induction pre as [|p pre IH]; simpl in Hcont;
      apply andb_true_iff in Hcont as [Hrun Hrest]; [|by apply IH].
    clear Hrest. apply forallb_not_key in Hrun.
    rewrite records_nil_iff in Hrun.
    induction mid as [|m0 mid IH]; [by intros ? ?%elem_of_nil|].
    simpl in Hrun. destruct (String.eqb_spec (key m0) (key md)) as [Hm|Hm].
    + intros m [->|Hin]%elem_of_cons; [done|]. by apply IH.
    + exfalso. apply (Hrun md'); [|done].
      right. apply elem_of_app. right. left.
  - induction data as [|md rest IH]; [done|]. intros Hbetween. simpl.
    apply andb_true_iff. split.
    + apply forallb_not_key, records_nil_iff. intros m Hin Hk.
      destruct (erase_run_split (key md) rest)
        as [[Hnil _]|(run & x & tail & -> & Hrun & Hne & Heq)].
      * rewrite Hnil in Hin. by apply elem_of_nil in Hin.
      * rewrite Heq in Hin. apply elem_of_cons in Hin as [->|Hin]; [done|].
        apply list_elem_of_split in Hin as (t1 & t2 & ->).
        apply Hne, (Hbetween [] md (run ++ x :: t1) m t2).
        -- simpl. by rewrite <- app_assoc.
        -- done.
        -- apply elem_of_app. right. left.
    + apply IH. intros pre m mid m' post -> Hk.
      by apply (Hbetween (md :: pre) m mid m' post).
Qed.

(** An identifier-ordered record set is one of them. *)
Lemma identifier_ordered_contiguous (data : IptcData) :
  identifier_ordered data = true -> contiguous data = true.
Proof.
  induction data as [|md rest IH]; simpl; [done|].
  rewrite !andb_true_iff. intros [Hle Hrest]. split; [|by apply IH].
  rewrite forallb_not_key, records_nil_iff.
  clear IH. revert Hle Hrest. induction rest as [|md' rest IH]; simpl.
  { by intros _ _ ? ?%elem_of_nil. }
  rewrite !andb_true_iff. intros [Hle1 Hle] [Hle' Hrest].
  destruct (String.eqb_spec (key md') (key md)) as [Hk|Hk]; [by apply IH|].
  intros md'' [->|Hin]%elem_of_cons; [done|].
  rewrite forallb_forall in Hle, Hle'.
  apply list_elem_of_In in Hin.
  intros Heq. apply Hk, String.leb_antisym; [|done].
  rewrite <- Heq. by apply Hle'.
Qed.

(** ** Facts about record sets and values *)

Lemma existsb_key (k : string) (data : IptcData) :
  existsb (fun md => String.eqb (key md) k) data = false
  <-> records k data = [].
Proof.
  unfold records. induction data as [|md rest IH]; simpl; [done|].
  rewrite filter_cons, orb_false_iff, IH.
  destruct (String.eqb_spec (key md) k) as [Hk|Hk].
  - rewrite decide_True by done. split; [by intros []|done].
  - rewrite decide_False by done. tauto.
Qed.

Lemma records_app_new (k v : string) (data : IptcData) :
  records k (others k data ++ [Datum k v]) = [Datum k v].
Proof.
  unfold records. rewrite filter_app.
  fold (records k (others k data)). rewrite records_others.
  by rewrite filter_cons_True.
Qed.

Lemma others_app_new (k v : string) (data : IptcData) :
  others k (data ++ [Datum k v]) = others k data.
Proof.
  unfold others. rewrite filter_app, filter_cons_False by (by intros []).
  by rewrite filter_nil, app_nil_r.
Qed.

Lemma others_idemp (k : string) (data : IptcData) :
  others k (others k data) = others k data.
Proof. apply others_all, records_others. Qed.

Lemma findKey_absent (k : string) (data : IptcData) :
  records k data = [] -> findKey k data = length data.
Proof.
  unfold records. induction data as [|md rest IH]; simpl; [done|].
  rewrite filter_cons.
  destruct (String.eqb_spec (key md) k) as [Hk|Hk].
  - by rewrite decide_True.
  - rewrite decide_False by done. intros Hr. by rewrite IH.
Qed.

Lemma findKey_app (k : string) (pre post : IptcData) :
  records k pre = [] -> findKey k (pre ++ post) = length pre + findKey k post.
Proof.
  unfold records. induction pre as [|md rest IH]; simpl; [done|].
  rewrite filter_cons.
  destruct (String.eqb_spec (key md) k) as [Hk|Hk].
  - by rewrite decide_True.
  - rewrite decide_False by done. intros Hr. by rewrite IH.
Qed.

Lemma records_map_Datum (k : string) (values : list string) :
  records k (map (Datum k) values) = map (Datum k) values.
Proof.
  unfold records. induction values as [|v rest IH]; simpl; [done|].
  by rewrite filter_cons_True, IH.
Qed.

(** Two labels of the dictionary never share a raw key. *)
Lemma map_find_elem {V} (k : string) (v : V) (m : stdmap V) :
  map_find k m = Some v -> v ∈ map snd m.
Proof.
  induction m as [|[k' v'] m IH]; simpl; [done|].
  destruct (String.eqb k' k).
  - intros [= ->]. by left.
  - intros Hfind. right. by apply IH.
Qed.

Lemma map_find_inj {V} (m : stdmap V) (k k' : string) (v : V) :
  NoDup (map snd m) ->
  map_find k m = Some v -> map_find k' m = Some v -> k = k'.
Proof.
  induction m as [|[k0 v0] m IH]; simpl; [done|].
  intros [Hnotin Hnodup]%NoDup_cons.
  destruct (String.eqb_spec k0 k) as [Hk|Hk];
    destruct (String.eqb_spec k0 k') as [Hk'|Hk']; try congruence.
  - intros [= ->] Hfind%map_find_elem. done.
  - intros Hfind%map_find_elem [= ->]. done.
  - by apply IH.
Qed.

Lemma humanToRawKey_inj (label label' rawKey : string) :
  map_find label humanToRawKey = Some rawKey ->
  map_find label' humanToRawKey = Some rawKey -> label = label'.
Proof.
  apply map_find_inj. apply (bool_decide_unpack _). by vm_compute.
Qed.

Lemma unique_keys_elem (k : string) (data : IptcData) :
  k ∈ unique_keys data <-> exists md, md ∈ data /\ key md = k.
Proof.
  unfold unique_keys.
  assert (forall s, k ∈ fold_left (fun s md => fst (set_insert (key md) s)) data s
                    <-> k ∈ s \/ exists md, md ∈ data /\ key md = k) as Hgen.
  { induction data as [|md rest IH]; intros s; cbn [fold_left].
    - split; [by left|]. intros [Hin|(md & Hin & _)]; [done|].
      by apply elem_of_nil in Hin.
    - rewrite IH, set_insert_elem. split.
      + intros [[->|Hin]|(md' & Hin & Hk)].
        * right. exists md. split; [by left|done].
        * by left.
        * right. exists md'. split; [by right|done].
      + intros [Hin|(md' & [->|Hin]%elem_of_cons & Hk)].
        * left. by right.
        * left. by left.
        * right. by exists md'. }
  rewrite Hgen. split; [|by right].
  intros [Hin|Hex]; [|done]. by apply elem_of_nil in Hin.
Qed.

Lemma collect_elem (k v : string) (it : IptcData) :
  v ∈ collect k it -> exists md, md ∈ it /\ key md = k /\ toString md = v.
Proof.
  induction it as [|md rest IH]; simpl.
  - by intros ?%elem_of_nil.
  - destruct (String.eqb_spec (key md) k) as [Hk|Hk]; [|by intros ?%elem_of_nil].
    intros [->|Hin]%elem_of_cons.
    + exists md. split; [by left|done].
    + destruct (IH Hin) as (md' & Hin' & Hk' & Hv).
      exists md'. split; [by right|done].
Qed.

Lemma first_run_values_elem (k v : string) (data : IptcData) :
  v ∈ first_run_values k data ->
  exists md, md ∈ data /\ key md = k /\ toString md = v.
Proof.
  intros (md & Hin & Hk & Hv)%collect_elem.
  exists md. split; [|done]. by eapply subseteq_drop.
Qed.

Lemma first_run_values_cons (k : string) (md : Iptcdatum) (data : IptcData) :
  first_run_values k (md :: data)
  = if String.eqb (key md) k then toString md :: collect k data
    else first_run_values k data.
Proof.
  unfold first_run_values. simpl.
  destruct (String.eqb (key md) k) eqn:Hk; simpl; [|done].
  by rewrite Hk.
Qed.

Lemma first_run_values_present (k : string) (data : IptcData) :
  (exists md, md ∈ data /\ key md = k) -> first_run_values k data <> [].
Proof.
  intros (md & Hin & Hk).
  induction data as [|md' rest IH]; [by apply elem_of_nil in Hin|].
  rewrite first_run_values_cons.
  destruct (String.eqb_spec (key md') k) as [Hk'|Hk']; [done|].
  apply IH. apply elem_of_cons in Hin as [->|Hin]; done.
Qed.

Lemma collect_records (k : string) (it : IptcData) :
  records k (erase_run k it) = [] ->
  collect k it = map toString (records k it).
Proof.
  unfold records. induction it as [|md rest IH]; simpl; [done|].
  rewrite filter_cons.
  destruct (String.eqb_spec (key md) k) as [Hk|Hk].
  - rewrite decide_True by done. intros Hrun. simpl. by rewrite IH.
  - rewrite decide_False, filter_cons_False by done. by intros ->.
Qed.

(** In a record set that keeps equal identifiers adjacent the first run
    of a key has all its records. *)
Lemma contiguous_first_run_values (k : string) (data : IptcData) :
  contiguous data = true ->
  first_run_values k data = map toString (records k data).
Proof.
  induction data as [|md rest IH]; [done|].
  simpl. rewrite andb_true_iff. intros [Hrun Hrest].
  rewrite first_run_values_cons. unfold records. rewrite filter_cons.
  destruct (String.eqb_spec (key md) k) as [Hk|Hk].
  - rewrite decide_True by done. simpl. f_equal. subst k.
    apply collect_records. by apply forallb_not_key.
  - rewrite decide_False by done. by apply IH.
Qed.

Lemma first_run_values_run (k : string) (pre run post : IptcData) :
  records k pre = [] -> records k post = [] ->
  (forall md, md ∈ run -> key md = k) ->
  first_run_values k (pre ++ run ++ post) = map toString run.
Proof.
  intros Hpre Hpost Hrun.
  induction pre as [|md pre IH]; simpl.
  - clear Hpre. induction run as [|md run IH]; simpl.
    + unfold first_run_values. rewrite findKey_absent by done.
      by rewrite drop_all.
    + rewrite first_run_values_cons.
      rewrite (proj2 (String.eqb_eq _ _) (Hrun md ltac:(by left))).
      f_equal. rewrite collect_records.
      * unfold records. rewrite filter_app. fold (records k post).
        rewrite Hpost, app_nil_r.
        clear IH. induction run as [|md' run IH]; simpl; [done|].
        rewrite filter_cons_True by (apply Hrun; right; left).
        simpl. f_equal. apply IH. intros md'' Hin. apply Hrun.
        apply elem_of_cons in Hin as [->|Hin]; [by left|by right; right].
      * clear IH. assert (forall md, md ∈ run -> key md = k) as Hrun'.
        { intros md' Hin. apply Hrun. by right. }
        clear Hrun. induction run as [|md' run IH]; simpl.
        -- rewrite records_nil_iff in *. intros md' Hin.
           by apply Hpost, (elem_of_erase_run k).
        -- rewrite (proj2 (String.eqb_eq _ _) (Hrun' md' ltac:(by left))).
           apply IH. intros md'' Hin. apply Hrun'. by right.
  - rewrite first_run_values_cons. unfold records in Hpre.
    rewrite filter_cons in Hpre.
    destruct (String.eqb_spec (key md) k) as [Hk|Hk].
    + by rewrite decide_True in Hpre.
    + rewrite decide_False in Hpre by done. by apply IH.
Qed.

Lemma first_occurrences_elem (v : string) (values : list string) :
  v ∈ first_occurrences values <-> v ∈ values.
Proof.
  induction values as [|w rest IH]; simpl; [done|].
  rewrite !elem_of_cons, list_elem_of_filter, IH.
  destruct (decide (v = w)); tauto.
Qed.

Lemma first_occurrences_NoDup (values : list string) :
  NoDup (first_occurrences values).
Proof.
  induction values as [|w rest IH]; simpl; [constructor|].
  apply NoDup_cons. split.
  - rewrite list_elem_of_filter. by intros [Hne _].
  - by apply NoDup_filter.
Qed.

Lemma filter_none {A} (P : A -> Prop) `{!forall x, Decision (P x)}
    (l : list A) :
  (forall x, x ∈ l -> ~ P x) -> filter P l = [].
Proof.
  intros Hall. induction l as [|x l IH]; [done|].
  rewrite filter_cons_False by (apply Hall; left).
  apply IH. intros y Hin. apply Hall. by right.
Qed.

Lemma first_occurrences_constant (x : string) (values : list string) :
  values <> [] -> (forall v, v ∈ values -> v = x) ->
  first_occurrences values = [x].
Proof.
  intros Hne Hall. destruct values as [|v rest]; [done|]. clear Hne.
  simpl. rewrite (Hall v) by left. f_equal.
  apply filter_none. intros w Hin Hw.
  apply (proj1 (first_occurrences_elem _ _)) in Hin.
  apply Hw, Hall. by right.
Qed.

Lemma first_occurrences_ABA (A B : string) :
  A <> B -> first_occurrences [A; B; A] = [A; B].
Proof.
  intros HAB. simpl. rewrite !filter_cons, !filter_nil.
  repeat case_decide; simplify_eq; try done.
  all: rewrite ?filter_cons, ?filter_nil; repeat case_decide; by simplify_eq.
Qed.

Lemma first_occurrences_nonempty (values : list string) :
  values <> [] -> first_occurrences values <> [].
Proof. by destruct values. Qed.

Lemma export_value_nonempty (label : string) (uniq : list string) :
  uniq <> [] -> is_Some (export_value label uniq).
Proof.
  intros Hne. unfold export_value.
  destruct (_ || _); [done|]. by destruct uniq.
Qed.

Lemma elem_of_erase_first_run (k : string) (md : Iptcdatum)
    (data : IptcData) :
  md ∈ erase_first_run k data -> md ∈ data.
Proof.
  induction data as [|md' rest IH]; simpl; [done|].
  destruct (String.eqb (key md') k).
  - intros Hin%elem_of_erase_run. by right.
  - rewrite !elem_of_cons. tauto.
Qed.

Lemma elem_of_erase_matching (iptcKey k : string) (md : Iptcdatum)
    (data : IptcData) :
  md ∈ erase_matching iptcKey k data -> md ∈ data.
Proof.
  destruct (decide (iptcKey = k)) as [->|Hk].
  - rewrite erase_matching_first_run. apply elem_of_erase_first_run.
  - by rewrite erase_matching_other_spelling.
Qed.

Lemma records_nonempty_elem (k : string) (data : IptcData) :
  records k data <> [] -> exists md, md ∈ data /\ key md = k.
Proof.
  unfold records. intros Hne.
  destruct (filter _ data) as [|md l] eqn:Hf; [done|].
  assert (md ∈ filter (λ md, key md = k) data) as Hin by (rewrite Hf; left).
  apply list_elem_of_filter in Hin as [Hk Hin]. by exists md.
Qed.

(** ** Properties of the adapter *)

Section Properties.

Variable validKey : string -> bool.
Variable spelling : string -> string.
Variable repeatable : string -> bool.
Variable tagName : string -> string.

#[local] Set Default Proof Using "Type".

(** *** Adding a record *)

Lemma add_absent (k v : string) (data : IptcData) :
  records k data = [] ->
  add repeatable (Datum k v) data = data ++ [Datum k v].
Proof.
  intros Hnone%existsb_key. unfold add. simpl.
  by rewrite Hnone, andb_false_r.
Qed.

Lemma add_repeatable (k v : string) (data : IptcData) :
  repeatable k = true ->
  add repeatable (Datum k v) data = data ++ [Datum k v].
Proof. intros Hrep. unfold add. simpl. by rewrite Hrep. Qed.

Lemma records_add_ne (k' : string) (datum : Iptcdatum) (data : IptcData) :
  key datum <> k' ->
  records k' (add repeatable datum data) = records k' data.
Proof.
  intros Hne. unfold add.
  destruct (negb _ && _); [done|].
  unfold records. rewrite filter_app, filter_cons_False by done.
  by rewrite filter_nil, app_nil_r.
Qed.

(** *** [setIptcTag] and [getIptcTag] *)

(** What [setIptcTag] does to the state when the key is accepted: the
    search and the new record go by the library's spelling of the key, the
    test of the erase loop by the string given. *)
Lemma setIptcTag_accepted (k v : string) (st : Exiv2Bind) :
  validKey k = true ->
  setIptcTag validKey spelling repeatable k v st
  = let data := add repeatable (Datum (spelling k) v)
                  (erase_matching (spelling k) k (iptcData st)) in
    Returned tt {| iptcData := data; file := data; writes := S (writes st) |}.
Proof. intros Hvalid. unfold setIptcTag, bind, IptcKey. by rewrite Hvalid. Qed.

(** With a key in the library's own spelling the loop erases the first run
    of the key. *)
Lemma setIptcTag_run (k v : string) (st : Exiv2Bind) :
  validKey k = true -> spelling k = k ->
  setIptcTag validKey spelling repeatable k v st
  = let data := add repeatable (Datum k v) (erase_first_run k (iptcData st)) in
    Returned tt {| iptcData := data; file := data; writes := S (writes st) |}.
Proof.
  intros Hvalid Hk. rewrite setIptcTag_accepted by done.
  by rewrite Hk, erase_matching_first_run.
Qed.

(** With a key in another spelling the loop erases nothing. *)
Lemma setIptcTag_other_spelling (k v : string) (st : Exiv2Bind) :
  validKey k = true -> spelling k <> k ->
  setIptcTag validKey spelling repeatable k v st
  = let data := add repeatable (Datum (spelling k) v) (iptcData st) in
    Returned tt {| iptcData := data; file := data; writes := S (writes st) |}.
Proof.
  intros Hvalid Hk. rewrite setIptcTag_accepted by done.
  by rewrite erase_matching_other_spelling.
Qed.

Lemma setIptcTag_throws (k v : string) (st : Exiv2Bind) :
  validKey k = false ->
  setIptcTag validKey spelling repeatable k v st = Thrown (Exiv2Error k) st.
Proof. intros Hvalid. unfold setIptcTag, bind, IptcKey. by rewrite Hvalid. Qed.

(** On a record set that keeps the records of the key adjacent the erase
    loop removes every record of the key, and [add] then appends. *)
Lemma setIptcTag_adjacent (k v : string) (st : Exiv2Bind) :
  validKey k = true -> spelling k = k ->
  adjacent k (iptcData st) = true ->
  setIptcTag validKey spelling repeatable k v st
  = let data := others k (iptcData st) ++ [Datum k v] in
    Returned tt {| iptcData := data; file := data; writes := S (writes st) |}.
Proof.
  intros Hvalid Hk Hadj. rewrite setIptcTag_run by done. cbv zeta.
  rewrite adjacent_erase_first_run by done.
  by rewrite add_absent by apply records_others.
Qed.

Lemma setIptcTag_contiguous (k v : string) (st : Exiv2Bind) :
  validKey k = true -> spelling k = k ->
  contiguous (iptcData st) = true ->
  setIptcTag validKey spelling repeatable k v st
  = let data := others k (iptcData st) ++ [Datum k v] in
    Returned tt {| iptcData := data; file := data; writes := S (writes st) |}.
Proof.
  intros Hvalid Hk Hcont. by apply setIptcTag_adjacent, contiguous_adjacent.
Qed.

(** C2, amended. On an opened adapter whose record set keeps the records
    of [k] adjacent (as an identifier-ordered set does), [setIptcTag k v]
    with a key that the library accepts and spells as given removes exactly
    the records whose identifier is [k], appends one record of [k] with
    value [v], and writes the whole record set to the file; afterwards [k]
    has exactly that one record. *)
Theorem setIptcTag_replaces_records (k v : string) (st : Exiv2Bind) :
  validKey k = true ->
  spelling k = k ->
  adjacent k (iptcData st) = true ->
  let data := others k (iptcData st) ++ [Datum k v] in
  setIptcTag validKey spelling repeatable k v st
  = Returned tt {| iptcData := data; file := data; writes := S (writes st) |}
  /\ records k data = [Datum k v].
Proof.
  intros Hvalid Hk Hadj data. split; [|apply records_app_new].
  by apply setIptcTag_adjacent.
Qed.

(** C3, amended. [setIptcTag k v] leaves the records of every identifier
    [k'] other than the library's spelling of [k] as they were, in the
    record set in memory and, when the file held the same records as memory
    before the call, in the file.  For a key that the library rejects this
    holds of every identifier. *)
Theorem setIptcTag_frame (k v k' : string) (st : Exiv2Bind) :
  (validKey k = true -> k' <> spelling k) ->
  let st' := final_state (setIptcTag validKey spelling repeatable k v st) in
  records k' (iptcData st') = records k' (iptcData st)
  /\ (file st = iptcData st -> records k' (file st') = records k' (file st)).
Proof.
  intros Hne. destruct (validKey k) eqn:Hvalid.
  - specialize (Hne eq_refl). rewrite setIptcTag_accepted by done. simpl.
    rewrite records_add_ne, records_erase_matching by (simpl; congruence).
    split; [done|]. by intros ->.
  - by rewrite setIptcTag_throws.
Qed.

(** What [getIptcTag] returns: the value of the first record of the key,
    the empty string when the key has no record, an exception when the
    library rejects the key. *)
Lemma lookup_findKey (k : string) (data : IptcData) :
  data !! findKey k data = head (records k data).
Proof.
  unfold records. induction data as [|md rest IH]; simpl; [done|].
  rewrite filter_cons.
  destruct (String.eqb_spec (key md) k) as [Hk|Hk].
  - by rewrite decide_True.
  - by rewrite decide_False.
Qed.

Lemma getIptcTag_run (k : string) (st : Exiv2Bind) :
  validKey k = true ->
  getIptcTag validKey spelling k st
  = Returned (first_value (spelling k) (iptcData st)) st.
Proof.
  intros Hvalid. unfold getIptcTag, bind, get_iptcData, IptcKey.
  rewrite Hvalid. cbn [ret]. rewrite lookup_findKey. unfold first_value.
  by destruct (records (spelling k) (iptcData st)).
Qed.

Lemma getIptcTag_absent (k : string) (st : Exiv2Bind) :
  validKey k = true -> records (spelling k) (iptcData st) = [] ->
  getIptcTag validKey spelling k st = Returned "" st.
Proof.
  intros Hvalid Hnone. rewrite getIptcTag_run by done.
  unfold first_value. by rewrite Hnone.
Qed.

Lemma getIptcTag_throws (k : string) (st : Exiv2Bind) :
  validKey k = false ->
  getIptcTag validKey spelling k st = Thrown (Exiv2Error k) st.
Proof.
  intros Hvalid. unfold getIptcTag, bind, get_iptcData, IptcKey.
  by rewrite Hvalid.
Qed.

(** C9. For a string that the library does not accept as an IPTC key,
    [getIptcTag] ends with the exception of the [IptcKey] construction and
    returns nothing.  The empty string is what it returns for an accepted
    key that no record matches, a record matching when it has the record
    and data-set number of the key, that is the library's spelling of it;
    and whenever it returns, the key was accepted, the adapter is as it
    was, and the result is the value of the first matching record, or the
    empty string when there is none. *)
Theorem getIptcTag_rejected_key_throws (k : string) (st : Exiv2Bind) :
  (validKey k = false ->
   getIptcTag validKey spelling k st = Thrown (Exiv2Error k) st)
  /\ (validKey k = true -> records (spelling k) (iptcData st) = [] ->
      getIptcTag validKey spelling k st = Returned "" st)
  /\ (forall s st', getIptcTag validKey spelling k st = Returned s st' ->
      validKey k = true /\ st' = st
      /\ s = first_value (spelling k) (iptcData st)).
Proof.
  split; [apply getIptcTag_throws|]. split; [apply getIptcTag_absent|].
  intros s st'. destruct (validKey k) eqn:Hvalid.
  - rewrite getIptcTag_run by done. by intros [= <- <-].
  - by rewrite getIptcTag_throws.
Qed.

(** C10, amended. On an opened adapter whose record set keeps the records
    of [k] adjacent, after [setIptcTag k v] with a key that the library
    accepts and spells as given has returned, the record just written is
    the only record of [k] and [getIptcTag k] returns exactly [v]. *)
Theorem getIptcTag_after_setIptcTag (k v : string) (st : Exiv2Bind) :
  validKey k = true ->
  spelling k = k ->
  adjacent k (iptcData st) = true ->
  exists st',
    setIptcTag validKey spelling repeatable k v st = Returned tt st'
    /\ records k (iptcData st') = [Datum k v]
    /\ getIptcTag validKey spelling k st' = Returned v st'.
Proof.
  intros Hvalid Hk Hadj.
  eexists. split; [by apply setIptcTag_adjacent|].
  cbv zeta. split; [apply records_app_new|].
  rewrite getIptcTag_run by done. unfold first_value. cbn [iptcData].
  by rewrite Hk, records_app_new.
Qed.

(** C6, amended. On an opened adapter whose record set keeps the records
    of [k] adjacent, two calls of [setIptcTag k v] in a row with a key that
    the library accepts and spells as given leave exactly one record under
    [k], with value [v], and the same records in memory and in the file as
    the first call alone. *)
Theorem setIptcTag_twice (k v : string) (st : Exiv2Bind) :
  validKey k = true ->
  spelling k = k ->
  adjacent k (iptcData st) = true ->
  exists st1 st2,
    setIptcTag validKey spelling repeatable k v st = Returned tt st1
    /\ setIptcTag validKey spelling repeatable k v st1 = Returned tt st2
    /\ records k (iptcData st2) = [Datum k v]
    /\ iptcData st2 = iptcData st1
    /\ file st2 = file st1.
Proof.
  intros Hvalid Hk Hadj.
  pose proof (setIptcTag_adjacent k v st Hvalid Hk Hadj) as Hset1.
  cbv zeta in Hset1.
  eexists. eexists. split; [exact Hset1|].
  match type of Hset1 with _ = Returned tt ?s => set (st1 := s) end.
  assert (adjacent k (iptcData st1) = true) as Hadj1
    by apply adjacent_app_new, records_others.
  pose proof (setIptcTag_adjacent k v st1 Hvalid Hk Hadj1) as Hset2.
  cbv zeta in Hset2.
  assert (others k (iptcData st1) ++ [Datum k v] = iptcData st1) as Heq.
  { simpl. by rewrite others_app_new, others_idemp. }
  rewrite Heq in Hset2. split; [exact Hset2|].
  split; [apply records_app_new|done].
Qed.

(** *** [from_dict] *)

Lemma dictionary_spelled_elem (label rawKey : string) :
  dictionary_spelled validKey spelling = true ->
  map_find label humanToRawKey = Some rawKey -> validKey rawKey = true ->
  spelling rawKey = rawKey.
Proof.
  unfold dictionary_spelled. rewrite forallb_forall.
  intros Hdict Hraw%map_find_elem%list_elem_of_In Hvalid.
  apply in_map_iff in Hraw as (entry & <- & Hin).
  specialize (Hdict _ Hin). rewrite Hvalid in Hdict.
  by apply String.eqb_eq.
Qed.

Lemma for_each_add (k : string) (l : list string) (st : Exiv2Bind) :
  for_each l (fun vs => update_iptcData (add repeatable (Datum k vs))) st
  = Returned tt
      (with_iptcData
         (fold_left (fun d vs => add repeatable (Datum k vs) d) l (iptcData st))
         st).
Proof.
  revert st. induction l as [|vs l IH]; intros st; simpl.
  - by destruct st.
  - unfold bind, update_iptcData at 1. by rewrite IH.
Qed.

(** What the body of the loop does for a label of the dictionary whose key
    the library accepts: the search and the new records go by the
    library's spelling of the key, the test of the erase loop by the key
    of the dictionary. *)
Lemma from_dict_entry_accepted (kv : string * pyobject) (rawKey : string)
    (st : Exiv2Bind) :
  map_find (fst kv) humanToRawKey = Some rawKey -> validKey rawKey = true ->
  from_dict_entry validKey spelling repeatable kv st
  = Returned tt
      (with_iptcData
         (fold_left (fun d vs => add repeatable (Datum (spelling rawKey) vs) d)
            (values_of (snd kv))
            (erase_matching (spelling rawKey) rawKey (iptcData st))) st).
Proof.
  intros Hraw Hvalid. unfold from_dict_entry. rewrite Hraw.
  unfold bind, IptcKey. rewrite Hvalid. simpl.
  destruct (snd kv) as [vs|l]; simpl; [done|].
  by rewrite for_each_add.
Qed.

Lemma from_dict_entry_run (kv : string * pyobject) (st : Exiv2Bind) :
  dictionary_spelled validKey spelling = true ->
  (forall rawKey, map_find (fst kv) humanToRawKey = Some rawKey ->
                  validKey rawKey = true) ->
  from_dict_entry validKey spelling repeatable kv st
  = Returned tt (with_iptcData (import_entry repeatable (iptcData st) kv) st).
Proof.
  intros Hdict Hvalid. unfold import_entry.
  destruct (map_find (fst kv) humanToRawKey) as [rawKey|] eqn:Hraw.
  - rewrite (from_dict_entry_accepted kv rawKey) by auto.
    rewrite (dictionary_spelled_elem (fst kv) rawKey) by auto.
    by rewrite erase_matching_first_run.
  - unfold from_dict_entry. rewrite Hraw. by destruct st.
Qed.

Lemma from_dict_entry_unknown (kv : string * pyobject) (st : Exiv2Bind) :
  map_find (fst kv) humanToRawKey = None ->
  from_dict_entry validKey spelling repeatable kv st = Returned tt st.
Proof. intros Hnone. unfold from_dict_entry. by rewrite Hnone. Qed.

Lemma for_each_from_dict_entry (section : stdmap pyobject) (st : Exiv2Bind) :
  dictionary_spelled validKey spelling = true ->
  resolvable validKey section = true ->
  for_each section (from_dict_entry validKey spelling repeatable) st
  = Returned tt
      (with_iptcData
         (fold_left (import_entry repeatable) section (iptcData st)) st).
Proof.
  intros Hdict. revert st.
  induction section as [|kv section IH]; intros st Hres.
  - by destruct st.
  - unfold resolvable in *. cbn [forallb] in Hres.
    apply andb_true_iff in Hres as [Hkv Hres].
    cbn [for_each]. unfold bind. rewrite from_dict_entry_run.
    + by rewrite IH.
    + done.
    + intros rawKey Hraw. by rewrite Hraw in Hkv.
Qed.


Lemma from_dict_run (meta : stdmap (stdmap pyobject))
    (section : stdmap pyobject) (st : Exiv2Bind) :
  dictionary_spelled validKey spelling = true ->
  map_find "iptc" meta = Some section ->
  resolvable validKey section = true ->
  from_dict validKey spelling repeatable meta st
  = let data := fold_left (import_entry repeatable) section (iptcData st) in
    Returned tt {| iptcData := data; file := data; writes := S (writes st) |}.
Proof.
  intros Hdict Hsec Hres. unfold from_dict. rewrite Hsec.
  unfold bind. by rewrite for_each_from_dict_entry.
Qed.

(** C8. [from_dict] on a document without an ["iptc"] section returns
    without an exception and leaves the adapter as it was: no record in
    memory changed, nothing written to the file. *)
Theorem from_dict_without_section (meta : stdmap (stdmap pyobject))
    (st : Exiv2Bind) :
  map_find "iptc" meta = None ->
  from_dict validKey spelling repeatable meta st = Returned tt st.
Proof. intros Hnone. unfold from_dict. by rewrite Hnone. Qed.

(** *** The records a section leaves under each key *)

Lemma add_refused (k v : string) (data : IptcData) :
  repeatable k = false -> records k data <> [] ->
  add repeatable (Datum k v) data = data.
Proof.
  intros Hrep Hsome. unfold add. simpl. rewrite Hrep. simpl.
  destruct (existsb _ data) eqn:Hex; [done|].
  by apply existsb_key in Hex.
Qed.

Lemma fold_add_kept (k : string) (values : list string) (data : IptcData) :
  records k data = [] ->
  fold_left (fun d vs => add repeatable (Datum k vs) d) values data
  = data ++ map (Datum k) (kept repeatable k values).
Proof.
  intros Hnone. unfold kept.
  destruct values as [|v rest]; simpl.
  { destruct (repeatable k); simpl; by rewrite app_nil_r. }
  rewrite add_absent by done.
  destruct (repeatable k) eqn:Hrep; simpl.
  - change (data ++ Datum k v :: map (Datum k) rest)
      with (data ++ [Datum k v] ++ map (Datum k) rest).
    rewrite app_assoc. generalize (data ++ [Datum k v]). clear Hnone.
    induction rest as [|w rest IH]; intros d; simpl.
    + by rewrite app_nil_r.
    + rewrite add_repeatable, IH by done. by rewrite <- app_assoc.
  - assert (records k (data ++ [Datum k v]) <> []) as Hsome.
    { unfold records. rewrite filter_app, filter_cons_True by done.
      by destruct (filter _ data). }
    revert Hsome. generalize (data ++ [Datum k v]).
    induction rest as [|w rest IH]; intros d Hsome; simpl; [done|].
    rewrite add_refused by done. by apply IH.
Qed.

Lemma replace_records_contiguous (k : string) (valObj : pyobject)
    (data : IptcData) :
  contiguous data = true ->
  replace_records repeatable k valObj data
  = others k data ++ map (Datum k) (kept repeatable k (values_of valObj)).
Proof.
  intros Hcont. unfold replace_records.
  rewrite contiguous_erase_first_run by done.
  apply fold_add_kept, records_others.
Qed.

Lemma records_fold_add_ne (k k' : string) (values : list string)
    (data : IptcData) :
  k' <> k ->
  records k'
    (fold_left (fun d vs => add repeatable (Datum k vs) d) values data)
  = records k' data.
Proof.
  intros Hne. revert data.
  induction values as [|v rest IH]; intros data; simpl; [done|].
  rewrite IH. apply records_add_ne. simpl. congruence.
Qed.

Lemma records_replace_records_ne (k k' : string) (valObj : pyobject)
    (data : IptcData) :
  k' <> k ->
  records k' (replace_records repeatable k valObj data) = records k' data.
Proof.
  intros Hne. unfold replace_records.
  by rewrite records_fold_add_ne, records_erase_first_run.
Qed.

Lemma records_replace_records (k : string) (valObj : pyobject)
    (data : IptcData) :
  contiguous data = true ->
  records k (replace_records repeatable k valObj data)
  = map (Datum k) (kept repeatable k (values_of valObj)).
Proof.
  intros Hcont. rewrite replace_records_contiguous by done.
  unfold records. rewrite filter_app.
  fold (records k (others k data)). rewrite records_others. simpl.
  apply records_map_Datum.
Qed.

Lemma contiguous_replace_records (k : string) (valObj : pyobject)
    (data : IptcData) :
  contiguous data = true ->
  contiguous (replace_records repeatable k valObj data) = true.
Proof.
  intros Hcont. rewrite replace_records_contiguous by done.
  apply (contiguous_app_new k).
  - by apply contiguous_others.
  - apply records_others.
  - by intros md (vs & -> & _)%list_elem_of_fmap.
Qed.

Lemma contiguous_import_entry (kv : string * pyobject) (data : IptcData) :
  contiguous data = true ->
  contiguous (import_entry repeatable data kv) = true.
Proof.
  intros Hcont. unfold import_entry.
  destruct (map_find (fst kv) humanToRawKey); [|done].
  by apply contiguous_replace_records.
Qed.

Lemma contiguous_fold_import_entry (section : stdmap pyobject)
    (data : IptcData) :
  contiguous data = true ->
  contiguous (fold_left (import_entry repeatable) section data) = true.
Proof.
  revert data. induction section as [|kv section IH]; intros data Hcont.
  - done.
  - cbn [fold_left]. by apply IH, contiguous_import_entry.
Qed.

Lemma records_import_entry_ne (kv : string * pyobject) (k' : string)
    (data : IptcData) :
  map_find (fst kv) humanToRawKey <> Some k' ->
  records k' (import_entry repeatable data kv) = records k' data.
Proof.
  intros Hne. unfold import_entry.
  destruct (map_find (fst kv) humanToRawKey) as [k|]; [|done].
  apply records_replace_records_ne. congruence.
Qed.

Lemma records_fold_import_entry_ne (section : stdmap pyobject) (k' : string)
    (data : IptcData) :
  (forall kv, kv ∈ section -> map_find (fst kv) humanToRawKey <> Some k') ->
  records k' (fold_left (import_entry repeatable) section data)
  = records k' data.
Proof.
  revert data. induction section as [|kv section IH]; intros data Hne.
  - done.
  - cbn [fold_left]. rewrite IH.
    + apply records_import_entry_ne, Hne. by left.
    + intros kv' Hin. apply Hne. by right.
Qed.

(** After the entries of a section with distinct labels have been applied
    to a record set that keeps equal identifiers adjacent, the records of
    the key of each recognized entry are the kept values of that entry. *)
Lemma records_fold_import_entry (section : stdmap pyobject)
    (label rawKey : string) (valObj : pyobject) (data : IptcData) :
  contiguous data = true ->
  NoDup (map fst section) ->
  (label, valObj) ∈ section ->
  map_find label humanToRawKey = Some rawKey ->
  records rawKey (fold_left (import_entry repeatable) section data)
  = map (Datum rawKey) (kept repeatable rawKey (values_of valObj)).
Proof.
  intros Hcont Hnodup Hin Hraw. revert data Hcont.
  induction section as [|kv section IH]; intros data Hcont.
  - by apply elem_of_nil in Hin.
  - cbn [fold_left]. simpl in Hnodup. apply NoDup_cons in Hnodup as [Hfresh Hnodup].
    apply elem_of_cons in Hin as [<-|Hin].
    + rewrite records_fold_import_entry_ne.
      * unfold import_entry. cbn [fst snd]. rewrite Hraw.
        by apply records_replace_records.
      * intros kv' Hin' Hraw'. apply Hfresh.
        rewrite (humanToRawKey_inj _ _ _ Hraw Hraw').
        change (fst kv' ∈ fst <$> section). by apply list_elem_of_fmap_2.
    + apply IH; [done|done|]. by apply contiguous_import_entry.
Qed.


(** *** [to_dict] *)

(** The body of the loop for a stored key: the library accepts it and
    spells it as it is stored. *)
Lemma to_dict_entry_run (data : IptcData) (rawKey : string)
    (iptc : stdmap pyobject) (st : Exiv2Bind) :
  validKey rawKey = true -> spelling rawKey = rawKey ->
  to_dict_entry validKey spelling tagName data rawKey iptc st
  = Returned (export_entry tagName data iptc rawKey) st.
Proof.
  intros Hvalid Hk. unfold to_dict_entry, bind, IptcKey. rewrite Hvalid, Hk.
  cbn [ret]. rewrite deduplicate_first_occurrences.
  unfold export_entry, export_value, label_of, first_run_values.
  destruct (_ || _); [done|].
  by destruct (first_occurrences _).
Qed.

Lemma to_dict_loop_run (data : IptcData) (keys : stdset)
    (iptc : stdmap pyobject) (st : Exiv2Bind) :
  (forall k, k ∈ keys -> validKey k = true /\ spelling k = k) ->
  to_dict_loop validKey spelling tagName data keys iptc st
  = Returned (fold_left (export_entry tagName data) keys iptc) st.
Proof.
  revert iptc. induction keys as [|k keys IH]; intros iptc Hvalid; [done|].
  cbn [to_dict_loop fold_left]. unfold bind.
  rewrite to_dict_entry_run by (apply Hvalid; left).
  apply IH. intros k' Hin. apply Hvalid. by right.
Qed.

Lemma Opened_elem (st : Exiv2Bind) (md : Iptcdatum) :
  Opened validKey spelling st = true -> md ∈ iptcData st ->
  validKey (key md) = true /\ spelling (key md) = key md.
Proof.
  unfold Opened. rewrite forallb_forall.
  intros Hopen Hin%list_elem_of_In. specialize (Hopen _ Hin).
  apply andb_true_iff in Hopen as [Hvalid Hk]. by apply String.eqb_eq in Hk.
Qed.

Lemma to_dict_run (st : Exiv2Bind) :
  Opened validKey spelling st = true ->
  to_dict validKey spelling tagName st
  = Returned
      [("iptc", fold_left (export_entry tagName (iptcData st))
                  (unique_keys (iptcData st)) [])] st.
Proof.
  intros Hopen. unfold to_dict, bind, get_iptcData.
  fold (unique_keys (iptcData st)).
  rewrite to_dict_loop_run; [done|].
  intros k (md & Hin & <-)%unique_keys_elem. by apply (Opened_elem st).
Qed.

(** A label that no key of the loop is filed under keeps its entry. *)
Lemma map_find_export_other (data : IptcData) (keys : stdset)
    (iptc : stdmap pyobject) (label : string) :
  (forall k, k ∈ keys -> label_of tagName k <> label) ->
  map_find label (fold_left (export_entry tagName data) keys iptc)
  = map_find label iptc.
Proof.
  revert iptc. induction keys as [|k keys IH]; intros iptc Hne; [done|].
  cbn [fold_left]. rewrite IH by (intros k' Hin; apply Hne; by right).
  unfold export_entry. destruct (export_value _ _); [|done].
  apply map_find_assign_ne, Hne. by left.
Qed.

(** A label whose keys all give the same value gets that value. *)
Lemma map_find_export_same (data : IptcData) (keys : stdset)
    (iptc : stdmap pyobject) (label : string) (v : pyobject) :
  (forall k, k ∈ keys -> label_of tagName k = label ->
     export_value label (first_occurrences (first_run_values k data))
     = Some v) ->
  (map_find label iptc = Some v
   \/ exists k, k ∈ keys /\ label_of tagName k = label) ->
  map_find label (fold_left (export_entry tagName data) keys iptc) = Some v.
Proof.
  revert iptc. induction keys as [|k keys IH]; intros iptc Hval Hex.
  - destruct Hex as [Hfind|(k & Hin & _)]; [done|]. by apply elem_of_nil in Hin.
  - cbn [fold_left]. apply IH; [intros k' Hin; apply Hval; by right|].
    destruct (decide (label_of tagName k = label)) as [Hk|Hk].
    + left. unfold export_entry. rewrite Hk, (Hval k) by (done || by left).
      apply map_find_assign_eq.
    + destruct Hex as [Hfind|(k' & [->|Hin]%elem_of_cons & Hk')]; try done.
      * left. rewrite <- Hfind. unfold export_entry.
        destruct (export_value _ _); [|done].
        by apply map_find_assign_ne.
      * right. by exists k'.
Qed.

(** The entry of the label ["Keywords"] is always a list. *)
Lemma map_find_export_Keywords (data : IptcData) (keys : stdset)
    (iptc : stdmap pyobject) :
  (forall v, map_find "Keywords" iptc = Some v -> exists uniq, v = PyList uniq) ->
  forall v,
    map_find "Keywords" (fold_left (export_entry tagName data) keys iptc)
    = Some v ->
    exists uniq, v = PyList uniq.
Proof.
  revert iptc. induction keys as [|k keys IH]; intros iptc Hinit; [done|].
  cbn [fold_left]. apply IH. intros v. unfold export_entry.
  destruct (String.eqb_spec (label_of tagName k) "Keywords") as [Hk|Hk].
  - rewrite Hk. unfold export_value. rewrite orb_true_r.
    rewrite map_find_assign_eq. intros [= <-]. by eexists.
  - destruct (export_value _ _); [|apply Hinit].
    rewrite map_find_assign_ne by done. apply Hinit.
Qed.

(** A label that a key of the loop with a record is filed under has an
    entry. *)
Lemma export_entry_keeps (data : IptcData) (iptc : stdmap pyobject)
    (k label : string) :
  is_Some (map_find label iptc) ->
  is_Some (map_find label (export_entry tagName data iptc k)).
Proof.
  intros Hsome. unfold export_entry. destruct (export_value _ _); [|done].
  destruct (decide (label_of tagName k = label)) as [<-|Hne].
  - by rewrite map_find_assign_eq.
  - by rewrite map_find_assign_ne.
Qed.

Lemma map_find_export_present (data : IptcData) (keys : stdset)
    (iptc : stdmap pyobject) (label : string) :
  (is_Some (map_find label iptc)
   \/ exists k, k ∈ keys /\ label_of tagName k = label
                /\ first_run_values k data <> []) ->
  is_Some (map_find label (fold_left (export_entry tagName data) keys iptc)).
Proof.
  revert iptc. induction keys as [|k keys IH]; intros iptc Hex.
  - destruct Hex as [Hsome|(k & Hin & _)]; [done|]. by apply elem_of_nil in Hin.
  - cbn [fold_left]. apply IH.
    destruct Hex as [Hsome|(k' & [->|Hin]%elem_of_cons & Hlab & Hne)].
    + left. by apply export_entry_keeps.
    + left. unfold export_entry. rewrite Hlab.
      destruct (export_value_nonempty label
                  (first_occurrences (first_run_values k data))) as [v ->].
      { by apply first_occurrences_nonempty. }
      by rewrite map_find_assign_eq.
    + right. by exists k'.
Qed.

(** C4. [to_dict] on an opened adapter returns without an exception; the
    entry of the label ["Keywords"] is always a list, and a label whose
    records all hold one and the same value [x] is mapped to the list
    [[x]] when it is ["Keywords"] and to the scalar [x] otherwise. *)
Theorem to_dict_multiplicity (st : Exiv2Bind) :
  Opened validKey spelling st = true ->
  exists iptc,
    to_dict validKey spelling tagName st = Returned [("iptc", iptc)] st
    /\ (forall v, map_find "Keywords" iptc = Some v ->
                  exists uniq, v = PyList uniq)
    /\ (forall label x,
          (exists md, md ∈ iptcData st /\ label_of tagName (key md) = label) ->
          (forall md, md ∈ iptcData st ->
                      label_of tagName (key md) = label -> toString md = x) ->
          map_find label iptc
          = Some (if String.eqb label "Keywords" then PyList [x]
                  else PyStr x)).
Proof.
  intros Hopen. eexists. split; [by apply to_dict_run|]. split.
  - by apply map_find_export_Keywords.
  - intros label x (md & Hin & Hlabel) Hall.
    apply map_find_export_same.
    + intros k (md' & Hin' & Hk)%unique_keys_elem Hlab.
      rewrite (first_occurrences_constant x).
      * unfold export_value. simpl. by destruct (String.eqb label "Keywords").
      * apply first_run_values_present. by exists md'.
      * intros v (md'' & Hin'' & Hk'' & <-)%first_run_values_elem.
        apply Hall; [done|]. by rewrite Hk''.
    + right. exists (key md). split; [|done].
      apply unique_keys_elem. by exists md.
Qed.

Lemma sole_key_elem (k : string) (data : IptcData) (md : Iptcdatum) :
  sole_key tagName k data = true -> md ∈ data ->
  label_of tagName (key md) = label_of tagName k -> key md = k.
Proof.
  unfold sole_key. rewrite forallb_forall.
  intros Hsole Hin%list_elem_of_In Hlab. specialize (Hsole md Hin).
  rewrite Hlab, String.eqb_refl in Hsole. by apply String.eqb_eq.
Qed.

(** The entry of a key whose records are one run and whose label no other
    stored key is filed under. *)
Lemma to_dict_run_entry (st : Exiv2Bind) (k : string)
    (pre run post : IptcData) :
  Opened validKey spelling st = true ->
  iptcData st = pre ++ run ++ post ->
  records k pre = [] -> records k post = [] ->
  run <> [] -> (forall md, md ∈ run -> key md = k) ->
  sole_key tagName k (iptcData st) = true ->
  exists iptc,
    to_dict validKey spelling tagName st = Returned [("iptc", iptc)] st
    /\ map_find (label_of tagName k) iptc
       = export_value (label_of tagName k)
           (first_occurrences (map toString run)).
Proof.
  intros Hopen Hdata Hpre Hpost Hne Hrun Hunique.
  eexists. split; [by apply to_dict_run|].
  destruct (export_value_nonempty (label_of tagName k)
              (first_occurrences (map toString run))) as [v Hv].
  { apply first_occurrences_nonempty. by destruct run. }
  rewrite Hv. apply map_find_export_same.
  - intros k' (md & Hin & <-)%unique_keys_elem Hlab.
    rewrite (sole_key_elem k _ md Hunique Hin Hlab), Hdata.
    by rewrite first_run_values_run.
  - right. exists k. split; [|done].
    apply unique_keys_elem. destruct run as [|md run]; [done|].
    exists md. split; [|apply Hrun; by left].
    rewrite Hdata. apply elem_of_app. right. by left.
Qed.

(** C5, amended. When the record set of an opened adapter holds the
    records of a raw key [k] in one run with the values [A], [B], [A] in
    this order, [A] and [B] different, and no other stored key is filed
    under the label of [k], [to_dict] maps that label to the list
    [[A; B]]. *)
Theorem to_dict_deduplicates (st : Exiv2Bind) (k A B : string)
    (pre post : IptcData) :
  Opened validKey spelling st = true ->
  iptcData st = pre ++ [Datum k A; Datum k B; Datum k A] ++ post ->
  records k pre = [] -> records k post = [] ->
  A <> B ->
  sole_key tagName k (iptcData st) = true ->
  exists iptc,
    to_dict validKey spelling tagName st = Returned [("iptc", iptc)] st
    /\ map_find (label_of tagName k) iptc = Some (PyList [A; B]).
Proof.
  intros Hopen Hdata Hpre Hpost HAB Hunique.
  destruct (to_dict_run_entry st k pre _ post Hopen Hdata Hpre Hpost)
    as (iptc & Hrun & Hfind); try done.
  { intros md Hin. repeat (apply elem_of_cons in Hin as [->|Hin]; [done|]).
    by apply elem_of_nil in Hin. }
  exists iptc. split; [done|]. rewrite Hfind. cbn [map toString].
  by rewrite first_occurrences_ABA.
Qed.

(** *** [from_dict] followed by [to_dict] *)

Lemma elem_of_add (md datum : Iptcdatum) (data : IptcData) :
  md ∈ add repeatable datum data -> md ∈ data \/ md = datum.
Proof.
  unfold add. destruct (negb _ && _); [by left|].
  rewrite elem_of_app, list_elem_of_singleton. tauto.
Qed.

Lemma elem_of_replace_records (k : string) (valObj : pyobject)
    (md : Iptcdatum) (data : IptcData) :
  md ∈ replace_records repeatable k valObj data -> md ∈ data \/ key md = k.
Proof.
  unfold replace_records.
  assert (forall d, md ∈ fold_left (fun d vs => add repeatable (Datum k vs) d)
                           (values_of valObj) d -> md ∈ d \/ key md = k) as Hfold.
  { induction (values_of valObj) as [|v rest IH]; intros d; simpl; [by left|].
    intros [[Hin| ->]%elem_of_add|Hk]%IH; auto. }
  intros [Hin%elem_of_erase_first_run|Hk]%Hfold; auto.
Qed.

(** A record present after the entries of a section have been applied was
    present before or has the key of a recognized entry. *)
Lemma elem_of_fold_import_entry (section : stdmap pyobject) (md : Iptcdatum)
    (data : IptcData) :
  md ∈ fold_left (import_entry repeatable) section data ->
  md ∈ data
  \/ exists label valObj,
       (label, valObj) ∈ section
       /\ map_find label humanToRawKey = Some (key md).
Proof.
  revert data. induction section as [|[label valObj] section IH]; intros data.
  - by left.
  - cbn [fold_left]. intros [Hin|(l & v & Hin & Hraw)]%IH.
    + unfold import_entry in Hin. cbn [fst snd] in Hin.
      destruct (map_find label humanToRawKey) as [rawKey|] eqn:Hraw; [|by left].
      apply elem_of_replace_records in Hin as [Hin|Hk]; [by left|].
      right. exists label, valObj. split; [by left|]. by rewrite Hk.
    + right. exists l, v. split; [by right|done].
Qed.

Lemma resolvable_elem (section : stdmap pyobject) (label rawKey : string)
    (valObj : pyobject) :
  resolvable validKey section = true ->
  (label, valObj) ∈ section ->
  map_find label humanToRawKey = Some rawKey -> validKey rawKey = true.
Proof.
  unfold resolvable. rewrite forallb_forall.
  intros Hres Hin%list_elem_of_In Hraw.
  specialize (Hres _ Hin). cbn [fst] in Hres. by rewrite Hraw in Hres.
Qed.

Lemma section_keys_elem (k : string) (section : stdmap pyobject) :
  k ∈ section_keys section
  <-> exists kv, kv ∈ section /\ map_find (fst kv) humanToRawKey = Some k.
Proof.
  unfold section_keys. rewrite list_elem_of_In, in_flat_map. split.
  - intros (kv & Hin & Hk). exists kv. split; [by apply list_elem_of_In|].
    destruct (map_find (fst kv) humanToRawKey) as [r|]; [|done].
    destruct Hk as [->|[]]. done.
  - intros (kv & Hin & Hk). exists kv. split; [by apply list_elem_of_In|].
    rewrite Hk. by left.
Qed.

Lemma section_keys_app (pre post : stdmap pyobject) :
  section_keys (pre ++ post) = section_keys pre ++ section_keys post.
Proof. unfold section_keys. apply flat_map_app. Qed.

Lemma Opened_fold_import_entry (section : stdmap pyobject) (st : Exiv2Bind)
    (data' : IptcData) (w : nat) :
  dictionary_spelled validKey spelling = true ->
  Opened validKey spelling st = true ->
  resolvable validKey section = true ->
  Opened validKey spelling
    {| iptcData := fold_left (import_entry repeatable) section (iptcData st);
       file := data'; writes := w |} = true.
Proof.
  unfold Opened. cbn [iptcData]. rewrite !forallb_forall.
  intros Hdict Hopen Hres md Hin%list_elem_of_In.
  apply elem_of_fold_import_entry in Hin as [Hin|(l & v & Hin & Hraw)].
  - by apply Hopen, list_elem_of_In.
  - pose proof (resolvable_elem section l _ v Hres Hin Hraw) as Hvalid.
    rewrite Hvalid, (dictionary_spelled_elem l) by done.
    by rewrite String.eqb_refl.
Qed.

(** What [to_dict] has under the labels of a section after [from_dict]
    stored it. *)
Lemma from_dict_to_dict_labels (meta : stdmap (stdmap pyobject))
    (section : stdmap pyobject) (st : Exiv2Bind) :
  dictionary_spelled validKey spelling = true ->
  Opened validKey spelling st = true ->
  contiguous (iptcData st) = true ->
  map_find "iptc" meta = Some section ->
  NoDup (map fst section) ->
  resolvable validKey section = true ->
  (forall label valObj rawKey,
     (label, valObj) ∈ section ->
     map_find label humanToRawKey = Some rawKey ->
     label_of tagName rawKey = label) ->
  (forall md label valObj rawKey,
     md ∈ iptcData st -> (label, valObj) ∈ section ->
     map_find label humanToRawKey = Some rawKey ->
     label_of tagName (key md) = label -> key md = rawKey) ->
  exists st' iptc,
    from_dict validKey spelling repeatable meta st = Returned tt st'
    /\ to_dict validKey spelling tagName st' = Returned [("iptc", iptc)] st'
    /\ (forall label valObj rawKey,
          (label, valObj) ∈ section ->
          map_find label humanToRawKey = Some rawKey ->
          map_find label iptc = exported repeatable label rawKey valObj)
    /\ (forall label,
          (forall md, md ∈ iptcData st -> label_of tagName (key md) <> label) ->
          (forall l valObj rawKey,
             (l, valObj) ∈ section ->
             map_find l humanToRawKey = Some rawKey ->
             label_of tagName rawKey <> label) ->
          map_find label iptc = None)
    /\ (forall md,
          md ∈ iptcData st -> key md ∉ section_keys section ->
          is_Some (map_find (label_of tagName (key md)) iptc)).
Proof.
  intros Hdict Hopen Hcont Hsec Hnodup Hres Hname Hfile.
  eexists. eexists. split; [by apply (from_dict_run meta section)|].
  cbv zeta. split; [apply to_dict_run; by apply Opened_fold_import_entry|].
  cbn [iptcData].
  set (data := fold_left (import_entry repeatable) section (iptcData st)).
  assert (contiguous data = true) as Hcont'
    by by apply contiguous_fold_import_entry.
  split.
  - intros label valObj rawKey Hin Hraw.
    pose proof (records_fold_import_entry section label rawKey valObj
                  (iptcData st) Hcont Hnodup Hin Hraw) as Hrec.
    fold data in Hrec.
    assert (forall md, md ∈ data -> label_of tagName (key md) = label ->
                       key md = rawKey) as Hunique.
    { intros md [Hmd|(l & v & Hmd & Hraw')]%elem_of_fold_import_entry Hlab.
      - by apply (Hfile md label valObj).
      - rewrite (Hname l v (key md) Hmd Hraw') in Hlab. subst l. congruence. }
    unfold exported.
    destruct (kept repeatable rawKey (values_of valObj)) as [|v0 vs] eqn:Hkept.
    + rewrite map_find_export_other; [done|].
      intros k (md & Hmd & <-)%unique_keys_elem Hlab.
      apply (proj1 (records_nil_iff rawKey data) Hrec md Hmd).
      by apply Hunique.
    + destruct (export_value_nonempty label (first_occurrences (v0 :: vs)))
        as [v Hv]; [done|].
      rewrite Hv. apply map_find_export_same.
      * intros k (md & Hmd & <-)%unique_keys_elem Hlab.
        rewrite (Hunique md Hmd Hlab).
        rewrite contiguous_first_run_values, Hrec by done.
        rewrite map_map. cbn [toString]. by rewrite map_id.
      * right. destruct (records_nonempty_elem rawKey data) as (md & Hmd & Hk).
        { by rewrite Hrec. }
        exists rawKey. split; [apply unique_keys_elem; by exists md|].
        by apply (Hname label valObj).
  - split.
    + intros label Hold Hnew. rewrite map_find_export_other; [done|].
      intros k (md & [Hmd|(l & v & Hmd & Hraw)]%elem_of_fold_import_entry
                & <-)%unique_keys_elem.
      * by apply Hold.
      * by apply (Hnew l v).
    + intros md Hmd Hfree. apply map_find_export_present. right.
      assert (md ∈ data) as Hmd'.
      { assert (md ∈ records (key md) data) as Hrec;
          [|by apply list_elem_of_filter in Hrec as [_ ?]].
        unfold data. rewrite records_fold_import_entry_ne.
        - by apply list_elem_of_filter.
        - intros kv Hkv Hraw. apply Hfree, section_keys_elem. by exists kv. }
      exists (key md). split; [apply unique_keys_elem; by exists md|].
      split; [done|]. apply first_run_values_present. by exists md.
Qed.

(** C1, amended. Take an opened adapter whose record set keeps equal
    identifiers adjacent, and a document whose ["iptc"] section has no
    label twice and whose labels known to the dictionary resolve to keys
    that the library accepts and that [to_dict] files under these same
    labels and no other stored key.  Then [from_dict] followed by [to_dict]
    returns a document in which every known label of the section has the
    canonical form of its value: of the values given, those kept (all, or
    the first only for a data set that may not repeat), without duplicates
    in the order of first occurrence, as a list when more than one is left
    or the label is ["Keywords"], as a scalar when one is left, and no
    entry when none is.  A label that neither a record of the image nor a
    known label of the section is filed under has no entry; the label of a
    record of the image whose key no known label of the section resolves
    to has one. *)
Theorem from_dict_to_dict (meta : stdmap (stdmap pyobject))
    (section : stdmap pyobject) (st : Exiv2Bind) :
  dictionary_spelled validKey spelling = true ->
  Opened validKey spelling st = true ->
  contiguous (iptcData st) = true ->
  map_find "iptc" meta = Some section ->
  NoDup (map fst section) ->
  resolvable validKey section = true ->
  faithful_labels tagName (iptcData st) section = true ->
  exists st' iptc,
    from_dict validKey spelling repeatable meta st = Returned tt st'
    /\ to_dict validKey spelling tagName st' = Returned [("iptc", iptc)] st'
    /\ (forall label valObj rawKey,
          (label, valObj) ∈ section ->
          map_find label humanToRawKey = Some rawKey ->
          map_find label iptc = exported repeatable label rawKey valObj)
    /\ (forall label,
          (forall md, md ∈ iptcData st -> label_of tagName (key md) <> label) ->
          (forall l valObj rawKey,
             (l, valObj) ∈ section ->
             map_find l humanToRawKey = Some rawKey ->
             label_of tagName rawKey <> label) ->
          map_find label iptc = None)
    /\ (forall md,
          md ∈ iptcData st -> key md ∉ section_keys section ->
          is_Some (map_find (label_of tagName (key md)) iptc)).
Proof.
  intros Hdict Hopen Hcont Hsec Hnodup Hres Hfaith.
  unfold faithful_labels in Hfaith. rewrite forallb_forall in Hfaith.
  apply from_dict_to_dict_labels; try done.
  - intros label valObj rawKey Hin%list_elem_of_In Hraw.
    specialize (Hfaith _ Hin). cbn [fst] in Hfaith. rewrite Hraw in Hfaith.
    apply andb_true_iff in Hfaith as [Hlab _]. by apply String.eqb_eq.
  - intros md label valObj rawKey Hmd Hin%list_elem_of_In Hraw Hlab.
    specialize (Hfaith _ Hin). cbn [fst] in Hfaith. rewrite Hraw in Hfaith.
    apply andb_true_iff in Hfaith as [Hname%String.eqb_eq Hsole].
    apply (sole_key_elem rawKey (iptcData st)); try done. congruence.
Qed.

(** *** Further properties of [getIptcTag] and [to_dict] *)

(** X1. [getIptcTag] never changes the adapter, and for an accepted key it
    returns the value of the first stored record that matches the key, one
    whose [key()] is the library's spelling of it; the empty string when
    there is none. *)
Theorem getIptcTag_first_record (k : string) (st : Exiv2Bind) :
  final_state (getIptcTag validKey spelling k st) = st
  /\ (validKey k = true ->
      getIptcTag validKey spelling k st
      = Returned (first_value (spelling k) (iptcData st)) st).
Proof.
  split; [|apply getIptcTag_run].
  destruct (validKey k) eqn:Hvalid.
  - by rewrite getIptcTag_run.
  - by rewrite getIptcTag_throws.
Qed.

Lemma to_dict_entry_outcome (data : IptcData) (rawKey : string)
    (iptc : stdmap pyobject) (st : Exiv2Bind) :
  (exists iptc', to_dict_entry validKey spelling tagName data rawKey iptc st
                 = Returned iptc' st)
  \/ (validKey rawKey = false
      /\ to_dict_entry validKey spelling tagName data rawKey iptc st
         = Thrown (Exiv2Error rawKey) st).
Proof.
  unfold to_dict_entry, bind, IptcKey.
  destruct (validKey rawKey) eqn:Hvalid; [left|by right].
  cbn [ret]. destruct (_ || _); [by eexists|].
  destruct (deduplicate _ _ _); by eexists.
Qed.

Lemma to_dict_loop_outcome (data : IptcData) (keys : stdset)
    (iptc : stdmap pyobject) (st : Exiv2Bind) :
  (exists iptc', to_dict_loop validKey spelling tagName data keys iptc st
                 = Returned iptc' st)
  \/ (exists k, k ∈ keys /\ validKey k = false
                /\ to_dict_loop validKey spelling tagName data keys iptc st
                   = Thrown (Exiv2Error k) st).
Proof.
  revert iptc. induction keys as [|k keys IH]; intros iptc.
  - left. by eexists.
  - cbn [to_dict_loop]. unfold bind.
    destruct (to_dict_entry_outcome data k iptc st) as [[iptc1 ->]|[Hbad ->]].
    + destruct (IH iptc1) as [[iptc' Hret]|(k' & Hin & Hbad & Hthrow)].
      * left. by exists iptc'.
      * right. exists k'. split; [by right|]. by split.
    + right. exists k. split; [by left|]. by split.
Qed.

(** X2. [to_dict] never changes the adapter, neither the records in memory
    nor the file; it returns a document with the one section ["iptc"], or
    ends with the exception of the library for a stored key that the
    library does not accept. *)
Theorem to_dict_read_only (st : Exiv2Bind) :
  (exists iptc, to_dict validKey spelling tagName st = Returned [("iptc", iptc)]
      st)
  \/ (exists md, md ∈ iptcData st /\ validKey (key md) = false
                 /\ to_dict validKey spelling tagName st
                    = Thrown (Exiv2Error (key md)) st).
Proof.
  unfold to_dict, bind, get_iptcData. fold (unique_keys (iptcData st)).
  destruct (to_dict_loop_outcome (iptcData st) (unique_keys (iptcData st))
              [] st) as [[iptc Hret]|(k & Hin & Hbad & Hthrow)].
  - left. exists iptc. by rewrite Hret.
  - right. apply unique_keys_elem in Hin as (md & Hin & <-).
    exists md. split; [done|]. split; [done|]. by rewrite Hthrow.
Qed.

(** X6. [from_dict] on a document whose section has the single entry of a
    dictionary label with a scalar value does exactly what [setIptcTag]
    does on the raw key of the label with that value: the same state and
    the same exception. *)
Theorem from_dict_scalar_is_setIptcTag (meta : stdmap (stdmap pyobject))
    (label rawKey value : string) (st : Exiv2Bind) :
  map_find "iptc" meta = Some [(label, PyStr value)] ->
  map_find label humanToRawKey = Some rawKey ->
  from_dict validKey spelling repeatable meta st
  = setIptcTag validKey spelling repeatable rawKey value st.
Proof.
  intros Hsec Hraw. unfold from_dict, setIptcTag. rewrite Hsec.
  cbn [for_each]. unfold from_dict_entry. cbn [fst snd]. rewrite Hraw.
  unfold bind, IptcKey. by destruct (validKey rawKey).
Qed.

Lemma map_find_export_origin (data : IptcData) (keys : stdset)
    (iptc : stdmap pyobject) (label : string) :
  is_Some (map_find label (fold_left (export_entry tagName data) keys iptc)) ->
  is_Some (map_find label iptc)
  \/ exists k, k ∈ keys /\ label_of tagName k = label.
Proof.
  revert iptc. induction keys as [|k keys IH]; intros iptc; [by left|].
  cbn [fold_left]. intros [Hsome|(k' & Hin & Hlab)]%IH.
  - destruct (decide (label_of tagName k = label)) as [Hk|Hk].
    + right. exists k. split; [by left|done].
    + left. unfold export_entry in Hsome.
      destruct (export_value _ _); [|done].
      by rewrite map_find_assign_ne in Hsome.
  - right. exists k'. split; [by right|done].
Qed.

(** X3. On an opened adapter the section that [to_dict] returns has an
    entry for exactly the labels of the stored records, whether the
    dictionary knows them or not; with no record it is empty. *)
Theorem to_dict_labels (st : Exiv2Bind) :
  Opened validKey spelling st = true ->
  exists iptc,
    to_dict validKey spelling tagName st = Returned [("iptc", iptc)] st
    /\ forall label,
         is_Some (map_find label iptc)
         <-> exists md, md ∈ iptcData st /\ label_of tagName (key md) = label.
Proof.
  intros Hopen. eexists. split; [by apply to_dict_run|].
  intros label. split.
  - intros [Hsome|(k & Hin & Hlab)]%map_find_export_origin.
    + by destruct Hsome.
    + apply unique_keys_elem in Hin as (md & Hin & <-). by exists md.
  - intros (md & Hin & Hlab). apply map_find_export_present. right.
    exists (key md). split; [apply unique_keys_elem; by exists md|].
    split; [done|]. apply first_run_values_present. by exists md.
Qed.

Lemma export_value_represents (label : string) (uniq : list string)
    (v : pyobject) :
  export_value label uniq = Some v -> represents label uniq v.
Proof.
  unfold export_value, represents.
  destruct (Nat.ltb_spec 1 (length uniq)) as [Hlen|Hlen]; simpl.
  - intros [= <-]. left. split; [done|by left].
  - destruct (String.eqb_spec label "Keywords") as [Hk|Hk].
    + intros [= <-]. left. split; [done|by right].
    + destruct uniq as [|x [|y uniq]]; simpl in *; try done; try lia.
      intros [= <-]. right. by exists x.
Qed.

Lemma map_find_export_all (Q : string -> pyobject -> Prop) (data : IptcData)
    (keys : stdset) (iptc : stdmap pyobject) :
  (forall label v, map_find label iptc = Some v -> Q label v) ->
  (forall k v, k ∈ keys ->
     export_value (label_of tagName k)
       (first_occurrences (first_run_values k data)) = Some v ->
     Q (label_of tagName k) v) ->
  forall label v,
    map_find label (fold_left (export_entry tagName data) keys iptc) = Some v ->
    Q label v.
Proof.
  revert iptc. induction keys as [|k keys IH]; intros iptc Hinit Hkeys.
  - done.
  - cbn [fold_left]. apply IH.
    + intros label v. unfold export_entry.
      destruct (export_value _ _) as [w|] eqn:Hw; [|apply Hinit].
      destruct (decide (label_of tagName k = label)) as [<-|Hne].
      * rewrite map_find_assign_eq. intros [= <-]. apply Hkeys; [by left|done].
      * rewrite map_find_assign_ne by done. apply Hinit.
    + intros k' v Hin. apply Hkeys. by right.
Qed.

(** X4. Every entry of the section that [to_dict] returns on an opened
    adapter comes from a stored key with that label: it stands for the
    values of the first run of the key's records, each once, as a list
    when there are several or the label is ["Keywords"] and as a scalar
    only for one value under another label. *)
Theorem to_dict_entries (st : Exiv2Bind) :
  Opened validKey spelling st = true ->
  exists iptc,
    to_dict validKey spelling tagName st = Returned [("iptc", iptc)] st
    /\ forall label v,
         map_find label iptc = Some v ->
         exists md uniq,
           md ∈ iptcData st /\ label_of tagName (key md) = label
           /\ NoDup uniq
           /\ (forall x, x ∈ uniq <->
                         x ∈ first_run_values (key md) (iptcData st))
           /\ represents label uniq v.
Proof.
  intros Hopen. eexists. split; [by apply to_dict_run|].
  apply map_find_export_all; [done|].
  intros k v (md & Hin & <-)%unique_keys_elem Hv.
  exists md, (first_occurrences (first_run_values (key md) (iptcData st))).
  split; [done|]. split; [done|]. split; [apply first_occurrences_NoDup|].
  split; [intros x; apply first_occurrences_elem|].
  by apply export_value_represents.
Qed.

(** *** How [from_dict] and [setIptcTag] end *)

Lemma with_iptcData_same (st : Exiv2Bind) : with_iptcData (iptcData st) st = st.
Proof. by destruct st. Qed.

(** What holds before a loop and is kept by its body, however the body
    ends, holds when the loop ends, however it ends. *)
Lemma for_each_invariant {A} (P : Exiv2Bind -> Prop) (body : A -> M unit)
    (l : list A) (st : Exiv2Bind) :
  (forall x s, x ∈ l -> P s -> P (final_state (body x s))) ->
  P st -> P (final_state (for_each l body st)).
Proof.
  revert st. induction l as [|x l IH]; intros st Hbody Hst; [done|].
  cbn [for_each]. unfold bind.
  pose proof (Hbody x st ltac:(by left) Hst) as Hx.
  destruct (body x st) as [[] st1|e st1]; [|done].
  apply IH; [|done]. intros y s Hin. apply Hbody. by right.
Qed.

Lemma from_dict_final_iptcData (meta : stdmap (stdmap pyobject))
    (st : Exiv2Bind) :
  iptcData (final_state (from_dict validKey spelling repeatable meta st))
  = match map_find "iptc" meta with
    | Some section =>
        iptcData
          (final_state
             (for_each section (from_dict_entry validKey spelling repeatable)
                st))
    | None => iptcData st
    end.
Proof.
  unfold from_dict. destruct (map_find "iptc" meta) as [section|]; [|done].
  unfold bind. by destruct (for_each section _ st).
Qed.

Lemma from_dict_entry_throws (kv : string * pyobject) (rawKey : string)
    (st : Exiv2Bind) :
  map_find (fst kv) humanToRawKey = Some rawKey -> validKey rawKey = false ->
  from_dict_entry validKey spelling repeatable kv st
  = Thrown (Exiv2Error rawKey) st.
Proof.
  intros Hraw Hbad. unfold from_dict_entry. rewrite Hraw.
  unfold bind, IptcKey. by rewrite Hbad.
Qed.

(** The body of the loop changes the records in memory only. *)
Lemma from_dict_entry_file (kv : string * pyobject) (st : Exiv2Bind) :
  file (final_state (from_dict_entry validKey spelling repeatable kv st))
  = file st
  /\ writes (final_state (from_dict_entry validKey spelling repeatable kv st))
     = writes st.
Proof.
  destruct (map_find (fst kv) humanToRawKey) as [rawKey|] eqn:Hraw.
  - destruct (validKey rawKey) eqn:Hvalid.
    + by rewrite (from_dict_entry_accepted kv rawKey).
    + by rewrite (from_dict_entry_throws kv rawKey).
  - by rewrite from_dict_entry_unknown.
Qed.

Lemma for_each_from_dict_entry_throws (pre post : stdmap pyobject)
    (kv : string * pyobject) (rawKey : string) (st : Exiv2Bind) :
  dictionary_spelled validKey spelling = true ->
  resolvable validKey pre = true ->
  map_find (fst kv) humanToRawKey = Some rawKey -> validKey rawKey = false ->
  for_each (pre ++ kv :: post) (from_dict_entry validKey spelling repeatable) st
  = Thrown (Exiv2Error rawKey)
      (with_iptcData (fold_left (import_entry repeatable) pre (iptcData st))
         st).
Proof.
  intros Hdict Hres Hraw Hbad. revert st.
  induction pre as [|kv' pre IH]; intros st.
  - cbn [app for_each fold_left]. unfold bind.
    by rewrite (from_dict_entry_throws kv rawKey), with_iptcData_same.
  - unfold resolvable in *. cbn [forallb] in Hres.
    apply andb_true_iff in Hres as [Hkv Hres].
    cbn [app for_each fold_left]. unfold bind. rewrite from_dict_entry_run.
    + by rewrite IH.
    + done.
    + intros r Hr. by rewrite Hr in Hkv.
Qed.

(** The ways [from_dict] ends: without a section at once; with a section
    after all its entries and one write; or at the first known entry whose
    key the library rejects, the entries before it applied in memory. *)
Lemma from_dict_outcome (meta : stdmap (stdmap pyobject)) (st : Exiv2Bind) :
  dictionary_spelled validKey spelling = true ->
  (map_find "iptc" meta = None
   /\ from_dict validKey spelling repeatable meta st = Returned tt st)
  \/ exists section pre post,
       map_find "iptc" meta = Some section /\ section = pre ++ post
       /\ resolvable validKey pre = true
       /\ ((post = []
            /\ from_dict validKey spelling repeatable meta st
               = Returned tt
                   {| iptcData := fold_left (import_entry repeatable) pre
                                    (iptcData st);
                      file := fold_left (import_entry repeatable) pre
                                (iptcData st);
                      writes := S (writes st) |})
           \/ (exists kv rest rawKey,
                 post = kv :: rest
                 /\ map_find (fst kv) humanToRawKey = Some rawKey
                 /\ validKey rawKey = false
                 /\ from_dict validKey spelling repeatable meta st
                    = Thrown (Exiv2Error rawKey)
                        (with_iptcData
                           (fold_left (import_entry repeatable) pre
                              (iptcData st)) st))).
Proof.
  intros Hdict.
  destruct (map_find "iptc" meta) as [section|] eqn:Hsec.
  - right. exists section.
    assert (exists pre post, section = pre ++ post
              /\ resolvable validKey pre = true
              /\ (post = []
                  \/ exists kv rest rawKey,
                       post = kv :: rest
                       /\ map_find (fst kv) humanToRawKey = Some rawKey
                       /\ validKey rawKey = false))
      as (pre & post & -> & Hres & Hpost).
    { clear Hsec. induction section as [|kv section IH].
      - exists [], []. split; [done|]. split; [done|by left].
      - destruct (map_find (fst kv) humanToRawKey) as [rawKey|] eqn:Hraw.
        + destruct (validKey rawKey) eqn:Hvalid.
          * destruct IH as (pre & post & -> & Hres & Hpost).
            exists (kv :: pre), post. split; [done|]. split; [|done].
            unfold resolvable in *. cbn [forallb]. by rewrite Hraw, Hvalid.
          * exists [], (kv :: section). split; [done|]. split; [done|].
            right. by exists kv, section, rawKey.
        + destruct IH as (pre & post & -> & Hres & Hpost).
          exists (kv :: pre), post. split; [done|]. split; [|done].
          unfold resolvable in *. cbn [forallb]. by rewrite Hraw. }
    exists pre, post. split; [done|]. split; [done|]. split; [done|].
    destruct Hpost as [->|(kv & rest & rawKey & -> & Hraw & Hbad)].
    + left. split; [done|]. rewrite app_nil_r in Hsec.
      by rewrite (from_dict_run meta pre).
    + right. exists kv, rest, rawKey. repeat split; try done.
      unfold from_dict. rewrite Hsec. unfold bind.
      by rewrite (for_each_from_dict_entry_throws pre rest kv rawKey).
  - left. split; [done|]. unfold from_dict. by rewrite Hsec.
Qed.

(** X7. When a known label of the section resolves to a key that the
    library rejects, [from_dict] ends with the exception for that key: the
    entries before it are applied to the records in memory, those after it
    are not, and the file is not written.  The library is taken to spell
    the keys of the dictionary that it accepts as the dictionary does. *)
Theorem from_dict_rejected_key (meta : stdmap (stdmap pyobject))
    (pre post : stdmap pyobject) (label rawKey : string) (valObj : pyobject)
    (st : Exiv2Bind) :
  dictionary_spelled validKey spelling = true ->
  map_find "iptc" meta = Some (pre ++ (label, valObj) :: post) ->
  resolvable validKey pre = true ->
  map_find label humanToRawKey = Some rawKey ->
  validKey rawKey = false ->
  from_dict validKey spelling repeatable meta st
  = Thrown (Exiv2Error rawKey)
      {| iptcData := fold_left (import_entry repeatable) pre (iptcData st);
         file := file st; writes := writes st |}.
Proof.
  intros Hdict Hsec Hres Hraw Hbad. unfold from_dict. rewrite Hsec.
  unfold bind.
  by rewrite (for_each_from_dict_entry_throws pre post _ rawKey).
Qed.

(** X15. A call of [from_dict] or [setIptcTag] writes the file once or not
    at all: when it returns (for [from_dict], with a section present) the
    file holds the records in memory and one write was made for the whole
    call; when it throws, the file and the number of writes are as
    before. *)
Theorem write_once_or_not_at_all (meta : stdmap (stdmap pyobject))
    (k v : string) (st : Exiv2Bind) :
  match from_dict validKey spelling repeatable meta st with
  | Returned _ st' =>
      (map_find "iptc" meta = None /\ st' = st)
      \/ (file st' = iptcData st' /\ writes st' = S (writes st))
  | Thrown _ st' => file st' = file st /\ writes st' = writes st
  end
  /\ match setIptcTag validKey spelling repeatable k v st with
     | Returned _ st' => file st' = iptcData st' /\ writes st' = S (writes st)
     | Thrown _ st' => file st' = file st /\ writes st' = writes st
     end.
Proof.
  split.
  - unfold from_dict.
    destruct (map_find "iptc" meta) as [section|]; [|by left].
    unfold bind.
    pose proof (for_each_invariant
                  (fun s => file s = file st /\ writes s = writes st)
                  (from_dict_entry validKey spelling repeatable) section st)
      as Hloop.
    destruct (for_each section _ st) as [[] st1|e st1]; cbn in *.
    + right. split; [done|]. f_equal. apply Hloop; [|done].
      intros kv s _ [<- <-]. apply from_dict_entry_file.
    + apply Hloop; [|done].
      intros kv s _ [<- <-]. apply from_dict_entry_file.
  - destruct (validKey k) eqn:Hvalid.
    + by rewrite setIptcTag_accepted.
    + by rewrite setIptcTag_throws.
Qed.

(** X8. [from_dict] leaves the records of every raw key that no known
    label of the section resolves to as they were in memory, however the
    call ends.  The library is taken to spell the keys of the dictionary
    that it accepts as the dictionary does. *)
Theorem from_dict_frame (meta : stdmap (stdmap pyobject)) (k' : string)
    (st : Exiv2Bind) :
  dictionary_spelled validKey spelling = true ->
  (forall section, map_find "iptc" meta = Some section ->
                   k' ∉ section_keys section) ->
  records k'
    (iptcData (final_state (from_dict validKey spelling repeatable meta st)))
  = records k' (iptcData st).
Proof.
  intros Hdict Hfree.
  assert (forall pre post, map_find "iptc" meta = Some (pre ++ post) ->
            records k' (fold_left (import_entry repeatable) pre (iptcData st))
            = records k' (iptcData st)) as Hpre.
  { intros pre post Hsec. apply records_fold_import_entry_ne.
    intros kv Hin Hraw. apply (Hfree _ Hsec).
    rewrite section_keys_app, elem_of_app. left.
    apply section_keys_elem. by exists kv. }
  destruct (from_dict_outcome meta st Hdict)
    as [[Hnone ->]|(section & pre & post & Hsec & -> & Hres
                    & [[-> ->]|(kv & rest & rawKey & -> & _ & _ & ->)])].
  - done.
  - by apply (Hpre pre []).
  - by apply (Hpre pre (kv :: rest)).
Qed.

(** X11. Both writers keep the record set in memory one in which the
    records of each identifier are adjacent, [setIptcTag] when the key is
    in the library's own spelling (or rejected), [from_dict] given that the
    library spells the keys of the dictionary as the dictionary does: if it
    is so before the call, it is so after it, however the call ends. *)
Theorem writers_keep_contiguous (meta : stdmap (stdmap pyobject))
    (k v : string) (st : Exiv2Bind) :
  contiguous (iptcData st) = true ->
  ((validKey k = true -> spelling k = k) ->
   contiguous
     (iptcData (final_state (setIptcTag validKey spelling repeatable k v st)))
   = true)
  /\ (dictionary_spelled validKey spelling = true ->
      contiguous
        (iptcData
           (final_state (from_dict validKey spelling repeatable meta st)))
      = true).
Proof.
  intros Hcont. split.
  - intros Hk. destruct (validKey k) eqn:Hvalid.
    + rewrite setIptcTag_contiguous by auto. cbn [final_state iptcData].
      apply (contiguous_app_new k).
      * by apply contiguous_others.
      * apply records_others.
      * by intros md ->%list_elem_of_singleton.
    + by rewrite setIptcTag_throws.
  - intros Hdict. destruct (from_dict_outcome meta st Hdict)
      as [[Hnone ->]|(section & pre & post & Hsec & -> & Hres
                      & [[-> ->]|(kv & rest & rawKey & -> & _ & _ & ->)])].
    + done.
    + by apply contiguous_fold_import_entry.
    + by apply contiguous_fold_import_entry.
Qed.

Lemma Opened_intro (st : Exiv2Bind) :
  (forall md, md ∈ iptcData st ->
     validKey (key md) = true /\ spelling (key md) = key md) ->
  Opened validKey spelling st = true.
Proof.
  unfold Opened. rewrite forallb_forall.
  intros Hall md Hin%list_elem_of_In. destruct (Hall md Hin) as [-> ->].
  by rewrite String.eqb_refl.
Qed.

Lemma elem_of_fold_add (k : string) (values : list string) (md : Iptcdatum)
    (data : IptcData) :
  md ∈ fold_left (fun d vs => add repeatable (Datum k vs) d) values data ->
  md ∈ data \/ key md = k.
Proof.
  revert data. induction values as [|v rest IH]; intros data; simpl;
    [by left|].
  intros [[Hin| ->]%elem_of_add|Hk]%IH; auto.
Qed.

Lemma Opened_setIptcTag (k v : string) (st : Exiv2Bind) :
  own_spelling validKey spelling ->
  Opened validKey spelling st = true ->
  Opened validKey spelling
    (final_state (setIptcTag validKey spelling repeatable k v st)) = true.
Proof.
  intros Hown Hopen. destruct (validKey k) eqn:Hvalid.
  - rewrite setIptcTag_accepted by done. apply Opened_intro.
    cbn [final_state iptcData].
    intros md [Hin%elem_of_erase_matching| ->]%elem_of_add.
    + by apply (Opened_elem st).
    + by apply Hown.
  - by rewrite setIptcTag_throws.
Qed.

Lemma Opened_from_dict_entry (kv : string * pyobject) (st : Exiv2Bind) :
  own_spelling validKey spelling ->
  Opened validKey spelling st = true ->
  Opened validKey spelling
    (final_state (from_dict_entry validKey spelling repeatable kv st)) = true.
Proof.
  intros Hown Hopen.
  destruct (map_find (fst kv) humanToRawKey) as [rawKey|] eqn:Hraw.
  - destruct (validKey rawKey) eqn:Hvalid.
    + rewrite (from_dict_entry_accepted kv rawKey) by done.
      apply Opened_intro. cbn [final_state with_iptcData iptcData].
      intros md [Hin%elem_of_erase_matching|Hk]%elem_of_fold_add.
      * by apply (Opened_elem st).
      * rewrite Hk. by apply Hown.
    + by rewrite (from_dict_entry_throws kv rawKey).
  - by rewrite from_dict_entry_unknown.
Qed.

(** X12. Both writers store only keys that the library accepts, in the
    library's own spelling: if every stored key is such a key before a call
    of [setIptcTag] or [from_dict], every stored key is one after it,
    however the call ends, so that [to_dict] does not throw afterwards.
    The library is taken to accept its own spelling of a key. *)
Theorem writers_keep_Opened (meta : stdmap (stdmap pyobject))
    (k v : string) (st : Exiv2Bind) :
  own_spelling validKey spelling ->
  Opened validKey spelling st = true ->
  Opened validKey spelling
    (final_state (setIptcTag validKey spelling repeatable k v st)) = true
  /\ Opened validKey spelling
       (final_state (from_dict validKey spelling repeatable meta st)) = true.
Proof.
  intros Hown Hopen. split; [by apply Opened_setIptcTag|].
  unfold Opened at 1. rewrite from_dict_final_iptcData.
  destruct (map_find "iptc" meta) as [section|]; [|done].
  apply (for_each_invariant (fun s => Opened validKey spelling s = true));
    [|done].
  intros kv s _. by apply Opened_from_dict_entry.
Qed.

(** *** The record set [from_dict] leaves *)

Lemma section_records_key (md : Iptcdatum) (section : stdmap pyobject) :
  md ∈ section_records repeatable section -> key md ∈ section_keys section.
Proof.
  unfold section_records. rewrite list_elem_of_In, in_flat_map.
  intros (kv & Hin & Hmd). apply section_keys_elem. exists kv.
  split; [by apply list_elem_of_In|].
  destruct (map_find (fst kv) humanToRawKey) as [rawKey|]; [|done].
  apply in_map_iff in Hmd as (x & <- & _). done.
Qed.

Lemma section_records_app (pre post : stdmap pyobject) :
  section_records repeatable (pre ++ post)
  = section_records repeatable pre ++ section_records repeatable post.
Proof. unfold section_records. apply flat_map_app. Qed.

Lemma untouched_section_records (section : stdmap pyobject) :
  untouched section (section_records repeatable section) = [].
Proof.
  unfold untouched. apply filter_none.
  intros md Hin%section_records_key Hnot. by apply Hnot.
Qed.

Lemma section_snoc_known (section : stdmap pyobject)
    (kv : string * pyobject) (rawKey : string) :
  map_find (fst kv) humanToRawKey = Some rawKey ->
  section_keys (section ++ [kv]) = section_keys section ++ [rawKey]
  /\ section_records repeatable (section ++ [kv])
     = section_records repeatable section
       ++ map (Datum rawKey) (kept repeatable rawKey (values_of (snd kv))).
Proof.
  intros Hraw. rewrite section_keys_app, section_records_app.
  unfold section_keys at 2, section_records at 2. cbn [flat_map].
  by rewrite Hraw, !app_nil_r.
Qed.

Lemma section_snoc_unknown (section : stdmap pyobject)
    (kv : string * pyobject) :
  map_find (fst kv) humanToRawKey = None ->
  section_keys (section ++ [kv]) = section_keys section
  /\ section_records repeatable (section ++ [kv])
     = section_records repeatable section.
Proof.
  intros Hraw. rewrite section_keys_app, section_records_app.
  unfold section_keys at 2, section_records at 2. cbn [flat_map].
  by rewrite Hraw, !app_nil_r.
Qed.

Lemma others_section_records (section : stdmap pyobject) (k : string) :
  k ∉ section_keys section ->
  others k (section_records repeatable section)
  = section_records repeatable section.
Proof.
  intros Hnew. apply others_all, records_nil_iff.
  intros md Hin%section_records_key Hk. apply Hnew. by rewrite <- Hk.
Qed.

(** After the entries of a section with distinct labels have been applied
    to a record set that keeps equal identifiers adjacent, the records are
    those of the keys that the section does not name, in their order, and
    after them the records that the known entries ask for, entry after
    entry. *)
Lemma fold_import_entry_normal (section : stdmap pyobject) (data : IptcData) :
  contiguous data = true ->
  NoDup (map fst section) ->
  fold_left (import_entry repeatable) section data
  = untouched section data ++ section_records repeatable section.
Proof.
  clear validKey spelling tagName. intros Hcont.
  induction section as [|kv section IH] using rev_ind; intros Hnodup.
  - cbn. rewrite app_nil_r. unfold untouched. symmetry. clear Hcont.
    induction data as [|md rest IHd]; [done|].
    rewrite filter_cons_True by apply not_elem_of_nil. by f_equal.
  - rewrite map_app in Hnodup. apply NoDup_app in Hnodup as (Hs & Hfresh & _).
    rewrite fold_left_app. cbn [fold_left]. rewrite IH by done.
    assert (contiguous (untouched section data
                        ++ section_records repeatable section) = true)
      as Hcont'.
    { rewrite <- IH by done. by apply contiguous_fold_import_entry. }
    unfold import_entry.
    destruct (map_find (fst kv) humanToRawKey) as [rawKey|] eqn:Hraw.
    + destruct (section_snoc_known section kv rawKey Hraw) as [Hkeys ->].
      rewrite replace_records_contiguous by done.
      rewrite app_assoc. f_equal.
      assert (rawKey ∉ section_keys section) as Hnew.
      { intros (kv' & Hin & Hraw')%section_keys_elem.
        apply (Hfresh (fst kv)).
        - rewrite (humanToRawKey_inj _ _ _ Hraw Hraw').
          change (fst kv' ∈ fst <$> section). by apply list_elem_of_fmap_2.
        - left. }
      unfold others at 1. rewrite filter_app.
      fold (others rawKey (section_records repeatable section)).
      rewrite others_section_records by done. f_equal.
      unfold untouched. rewrite Hkeys, list_filter_filter.
      apply list_filter_iff. intros md.
      rewrite elem_of_app, list_elem_of_singleton. tauto.
    + destruct (section_snoc_unknown section kv Hraw) as [Hkeys ->].
      unfold untouched. by rewrite Hkeys.
Qed.

(** X9. On a record set that keeps equal identifiers adjacent, [from_dict]
    with a section whose known labels resolve to keys that the library
    accepts and spells as the dictionary does leaves, in
    memory and in the file, the records of the keys that the section does
    not name in their old order, followed by the records that its known
    entries ask for, entry after entry. *)
Theorem from_dict_records (meta : stdmap (stdmap pyobject))
    (section : stdmap pyobject) (st : Exiv2Bind) :
  dictionary_spelled validKey spelling = true ->
  map_find "iptc" meta = Some section ->
  resolvable validKey section = true ->
  NoDup (map fst section) ->
  contiguous (iptcData st) = true ->
  let data := untouched section (iptcData st)
              ++ section_records repeatable section in
  from_dict validKey spelling repeatable meta st
  = Returned tt {| iptcData := data; file := data; writes := S (writes st) |}.
Proof.
  intros Hdict Hsec Hres Hnodup Hcont data. subst data.
  rewrite (from_dict_run meta section) by done. cbv zeta.
  by rewrite fold_import_entry_normal.
Qed.

(** X10. On a record set that keeps equal identifiers adjacent, [from_dict]
    with the same document twice in a row leaves the records, in memory and
    in the file, that the first call alone leaves.  The known labels of the
    document resolve to keys that the library accepts and spells as the
    dictionary does. *)
Theorem from_dict_twice (meta : stdmap (stdmap pyobject))
    (section : stdmap pyobject) (st : Exiv2Bind) :
  dictionary_spelled validKey spelling = true ->
  map_find "iptc" meta = Some section ->
  resolvable validKey section = true ->
  NoDup (map fst section) ->
  contiguous (iptcData st) = true ->
  exists st1 st2,
    from_dict validKey spelling repeatable meta st = Returned tt st1
    /\ from_dict validKey spelling repeatable meta st1 = Returned tt st2
    /\ iptcData st2 = iptcData st1
    /\ file st2 = file st1.
Proof.
  intros Hdict Hsec Hres Hnodup Hcont.
  eexists. eexists. split; [by apply (from_dict_run meta section)|].
  cbv zeta. split; [by apply (from_dict_run meta section)|].
  cbv zeta. cbn [iptcData file].
  assert (fold_left (import_entry repeatable) section
            (fold_left (import_entry repeatable) section (iptcData st))
          = fold_left (import_entry repeatable) section (iptcData st)) as ->;
    [|done].
  rewrite (fold_import_entry_normal section (fold_left _ _ _))
    by (done || by apply contiguous_fold_import_entry).
  rewrite (fold_import_entry_normal section (iptcData st)) by done.
  f_equal. unfold untouched at 1. rewrite filter_app.
  fold (untouched section (section_records repeatable section)).
  rewrite untouched_section_records, app_nil_r.
  unfold untouched. rewrite list_filter_filter.
  apply list_filter_iff. intros md. split; [by intros [? ?]|done].
Qed.

(** X13. On a record set that keeps equal identifiers adjacent, after
    [from_dict] has stored a section without a label twice, [getIptcTag] on
    the raw key of a known label of the section returns the value given
    for the label, the first one of a list, and the empty string for an
    empty list.  The known labels of the section resolve to keys that the
    library accepts and spells as the dictionary does. *)
Theorem getIptcTag_after_from_dict (meta : stdmap (stdmap pyobject))
    (section : stdmap pyobject) (label rawKey : string) (valObj : pyobject)
    (st : Exiv2Bind) :
  dictionary_spelled validKey spelling = true ->
  map_find "iptc" meta = Some section ->
  resolvable validKey section = true ->
  NoDup (map fst section) ->
  contiguous (iptcData st) = true ->
  (label, valObj) ∈ section ->
  map_find label humanToRawKey = Some rawKey ->
  exists st',
    from_dict validKey spelling repeatable meta st = Returned tt st'
    /\ getIptcTag validKey spelling rawKey st'
       = Returned (match values_of valObj with
                   | value :: _ => value
                   | [] => ""
                   end) st'.
Proof.
  intros Hdict Hsec Hres Hnodup Hcont Hin Hraw.
  eexists. split; [by apply (from_dict_run meta section)|].
  pose proof (resolvable_elem section label rawKey valObj Hres Hin Hraw)
    as Hvalid.
  cbv zeta. rewrite getIptcTag_run by done.
  rewrite (dictionary_spelled_elem label rawKey) by done.
  f_equal. unfold first_value. cbn [iptcData].
  rewrite (records_fold_import_entry section label rawKey valObj) by done.
  unfold kept. destruct (values_of valObj) as [|value rest].
  - by destruct (repeatable rawKey).
  - by destruct (repeatable rawKey).
Qed.

Lemma sole_key_others_app (k v : string) (data : IptcData) :
  sole_key tagName k data = true ->
  sole_key tagName k (others k data ++ [Datum k v]) = true.
Proof.
  unfold sole_key. rewrite forallb_app, andb_true_iff, !forallb_forall.
  intros Hsole. split.
  - intros md [_ Hin]%list_elem_of_In%list_elem_of_filter.
    by apply Hsole, list_elem_of_In.
  - intros md [<-|[]]. cbn [key]. by rewrite !String.eqb_refl.
Qed.

Lemma sole_under_elem (label k : string) (data : IptcData) (md : Iptcdatum) :
  sole_under tagName label k data = true -> md ∈ data ->
  label_of tagName (key md) = label -> key md = k.
Proof.
  unfold sole_under. rewrite forallb_forall.
  intros Hsole Hin%list_elem_of_In Hlab. specialize (Hsole md Hin).
  rewrite Hlab, String.eqb_refl in Hsole. by apply String.eqb_eq.
Qed.

(** The entry [to_dict] has for a key whose one record, with value [v],
    stands last, no other stored key being filed under its label. *)
Lemma to_dict_new_record (k v : string) (pre : IptcData) (st : Exiv2Bind) :
  Opened validKey spelling st = true ->
  iptcData st = pre ++ [Datum k v] ->
  records k pre = [] ->
  sole_key tagName k (iptcData st) = true ->
  exists iptc,
    to_dict validKey spelling tagName st = Returned [("iptc", iptc)] st
    /\ map_find (label_of tagName k) iptc
       = Some (if String.eqb (label_of tagName k) "Keywords"
               then PyList [v] else PyStr v).
Proof.
  intros Hopen Hdata Hpre Hsole.
  destruct (to_dict_run_entry st k pre [Datum k v] [])
    as (iptc & Hto & Hfind); try done.
  { by intros md ->%list_elem_of_singleton. }
  exists iptc. split; [done|].
  rewrite Hfind. unfold export_value. cbn.
  by destruct (String.eqb (label_of tagName k) "Keywords").
Qed.

(** X14. On an opened adapter whose record set keeps equal identifiers
    adjacent, after [setIptcTag k v] with an accepted key under whose label
    no other stored key is filed, [to_dict] has the value [v] under the
    label of [k]: as the list of [v] alone when the label is ["Keywords"],
    as the scalar [v] otherwise.  The label of [k] is the one [to_dict]
    files the library's spelling of [k] under; the library is taken to
    accept its own spelling of a key. *)
Theorem to_dict_after_setIptcTag (k v : string) (st : Exiv2Bind) :
  own_spelling validKey spelling ->
  Opened validKey spelling st = true ->
  contiguous (iptcData st) = true ->
  validKey k = true ->
  sole_under tagName (label_of tagName (spelling k)) k (iptcData st) = true ->
  exists st' iptc,
    setIptcTag validKey spelling repeatable k v st = Returned tt st'
    /\ to_dict validKey spelling tagName st' = Returned [("iptc", iptc)] st'
    /\ map_find (label_of tagName (spelling k)) iptc
       = Some (if String.eqb (label_of tagName (spelling k)) "Keywords"
               then PyList [v] else PyStr v).
Proof.
  intros Hown Hopen Hcont Hvalid Hsole.
  pose proof (Opened_setIptcTag k v st Hown Hopen) as Hopen'.
  destruct (decide (spelling k = k)) as [Hk|Hk].
  - rewrite Hk in *.
    pose proof (setIptcTag_contiguous k v st Hvalid Hk Hcont) as Hset.
    cbv zeta in Hset. rewrite Hset in Hopen'. cbn [final_state] in Hopen'.
    eexists. rewrite Hset.
    destruct (to_dict_new_record k v (others k (iptcData st)) _ Hopen')
      as (iptc & Hto & Hfind); [done|apply records_others| |by exists iptc].
    by apply sole_key_others_app.
  - assert (records (spelling k) (iptcData st) = []) as Hnone.
    { apply records_nil_iff. intros md Hin Hmd.
      pose proof (sole_under_elem _ k _ md Hsole Hin) as Hmd'.
      rewrite Hmd in Hmd'. specialize (Hmd' eq_refl).
      destruct (Opened_elem st md Hopen Hin) as [_ Hsp].
      rewrite Hmd in Hsp. congruence. }
    pose proof (setIptcTag_other_spelling k v st Hvalid Hk) as Hset.
    cbv zeta in Hset. rewrite add_absent in Hset by done.
    rewrite Hset in Hopen'. cbn [final_state] in Hopen'.
    eexists. rewrite Hset.
    destruct (to_dict_new_record (spelling k) v (iptcData st) _ Hopen')
      as (iptc & Hto & Hfind); [done|done| |by exists iptc].
    unfold sole_key. cbn [iptcData].
    rewrite forallb_app, andb_true_iff, !forallb_forall. split.
    + intros md Hin%list_elem_of_In.
      destruct (String.eqb_spec (label_of tagName (key md))
                  (label_of tagName (spelling k))) as [Hlab|Hlab]; [|done].
      pose proof (sole_under_elem _ k _ md Hsole Hin Hlab) as Hmd.
      destruct (Opened_elem st md Hopen Hin) as [_ Hsp].
      rewrite Hmd in Hsp. congruence.
    + intros md [<-|[]]. cbn [key]. by rewrite !String.eqb_refl.
Qed.

(** *** The erase loop on any record set *)

Lemma erase_run_run (k : string) (run post : IptcData) :
  (forall md, md ∈ run -> key md = k) ->
  (forall md, head post = Some md -> key md <> k) ->
  erase_run k (run ++ post) = post.
Proof.
  intros Hrun Hpost. induction run as [|md run IH]; simpl.
  - destruct post as [|md post]; [done|]. simpl.
    destruct (String.eqb_spec (key md) k) as [Hk|Hk]; [|done].
    by destruct (Hpost md).
  - rewrite (proj2 (String.eqb_eq _ _) (Hrun md ltac:(by left))).
    apply IH. intros md' Hin. apply Hrun. by right.
Qed.

Lemma erase_first_run_run (k : string) (pre run post : IptcData) :
  records k pre = [] -> run <> [] ->
  (forall md, md ∈ run -> key md = k) ->
  (forall md, head post = Some md -> key md <> k) ->
  erase_first_run k (pre ++ run ++ post) = pre ++ post.
Proof.
  intros Hpre Hne Hrun Hpost. induction pre as [|md pre IH]; simpl.
  - destruct run as [|md run]; [done|]. simpl.
    rewrite (proj2 (String.eqb_eq _ _) (Hrun md ltac:(by left))).
    apply erase_run_run; [|done]. intros md' Hin. apply Hrun. by right.
  - unfold records in Hpre. rewrite filter_cons in Hpre.
    destruct (String.eqb_spec (key md) k) as [Hk|Hk].
    + by rewrite decide_True in Hpre.
    + rewrite decide_False in Hpre by done. by rewrite IH.
Qed.

(** X16. On any record set, [setIptcTag k v] with the key of stored
    records, one the library accepts and spells that way, of a data set
    that may repeat, removes the run of records of [k] that starts at the
    first record of [k] and nothing else, and appends the new record:
    records of [k] after that run stay where they are. *)
Theorem setIptcTag_first_run (k v : string) (pre run post : IptcData)
    (st : Exiv2Bind) :
  validKey k = true -> spelling k = k -> repeatable k = true ->
  iptcData st = pre ++ run ++ post ->
  records k pre = [] -> run <> [] ->
  (forall md, md ∈ run -> key md = k) ->
  (forall md, head post = Some md -> key md <> k) ->
  setIptcTag validKey spelling repeatable k v st
  = Returned tt
      {| iptcData := pre ++ post ++ [Datum k v];
         file := pre ++ post ++ [Datum k v];
         writes := S (writes st) |}.
Proof.
  intros Hvalid Hk Hrep Hdata Hpre Hne Hrun Hpost.
  rewrite setIptcTag_run by done. cbv zeta.
  rewrite Hdata, erase_first_run_run, add_repeatable by done.
  by rewrite <- app_assoc.
Qed.

(** *** Labels that several keys are filed under *)

Lemma unique_keys_ordered (data : IptcData) : set_ordered (unique_keys data).
Proof.
  unfold unique_keys.
  assert (forall s, set_ordered s ->
            set_ordered (fold_left (fun s md => fst (set_insert (key md) s))
                           data s)) as Hgen.
  { induction data as [|md rest IH]; intros s Hs; [done|].
    cbn [fold_left]. by apply IH, set_insert_ordered. }
  apply Hgen. constructor.
Qed.

Lemma set_ordered_after (l1 l2 : stdset) (k x : string) :
  set_ordered (l1 ++ k :: l2) -> x ∈ l2 -> String.compare k x = Lt.
Proof.
  unfold set_ordered. induction l1 as [|y l1 IH]; simpl.
  - intros Hs Hin. apply StronglySorted_inv in Hs as [_ Hall].
    rewrite list.Forall_forall in Hall. by apply Hall.
  - intros Hs. apply StronglySorted_inv in Hs as [Hs _]. by apply IH.
Qed.

(** X17. When several stored keys are filed under one label, the entry
    that [to_dict] returns under the label is that of the key that comes
    last in the order of the keys: the entries of the keys before it are
    overwritten. *)
Theorem to_dict_last_key_wins (k : string) (st : Exiv2Bind) :
  Opened validKey spelling st = true ->
  records k (iptcData st) <> [] ->
  last_key tagName k (iptcData st) = true ->
  exists iptc,
    to_dict validKey spelling tagName st = Returned [("iptc", iptc)] st
    /\ map_find (label_of tagName k) iptc
       = export_value (label_of tagName k)
           (first_occurrences (first_run_values k (iptcData st))).
Proof.
  intros Hopen Hsome Hlast. eexists. split; [by apply to_dict_run|].
  apply records_nonempty_elem in Hsome as (md & Hin & Hk).
  assert (k ∈ unique_keys (iptcData st)) as Hkin
    by (apply unique_keys_elem; by exists md).
  pose proof (unique_keys_ordered (iptcData st)) as Hord.
  apply list_elem_of_split in Hkin as (l1 & l2 & Hsplit).
  rewrite Hsplit in Hord |- *.
  rewrite fold_left_app. cbn [fold_left].
  rewrite map_find_export_other.
  - unfold export_entry at 1.
    destruct (export_value_nonempty (label_of tagName k)
                (first_occurrences (first_run_values k (iptcData st))))
      as [w Hw].
    { apply first_occurrences_nonempty, first_run_values_present.
      by exists md. }
    rewrite Hw. apply map_find_assign_eq.
  - intros x Hx Hlab.
    pose proof (set_ordered_after l1 l2 k x Hord Hx) as Hlt.
    assert (x ∈ unique_keys (iptcData st)) as Hxin.
    { rewrite Hsplit. apply elem_of_app. right. by right. }
    apply unique_keys_elem in Hxin as (mdx & Hinx & <-).
    unfold last_key in Hlast. rewrite forallb_forall in Hlast.
    specialize (Hlast mdx (proj1 (list_elem_of_In _ _) Hinx)).
    rewrite Hlab, String.eqb_refl in Hlast. cbn [implb] in Hlast.
    apply orb_true_iff in Hlast as [Heq%String.eqb_eq|Hlt'].
    + by apply compare_Lt_ne in Hlt.
    + unfold String.ltb in Hlt'.
      rewrite String.compare_antisym, Hlt in Hlt'. done.
Qed.

End Properties.

(** ** The de-duplication loop *)

Lemma first_occurrences_sublist (values : list string) :
  first_occurrences values `sublist_of` values.
Proof.
  induction values as [|v rest IH]; simpl; [constructor|].
  apply sublist_skip. transitivity (first_occurrences rest); [|done].
  apply sublist_filter.
Qed.

Lemma filter_all {A} (P : A -> Prop) `{!forall x, Decision (P x)}
    (l : list A) :
  (forall x, x ∈ l -> P x) -> filter P l = l.
Proof.
  intros Hall. induction l as [|x l IH]; [done|].
  rewrite filter_cons_True by (apply Hall; left).
  f_equal. apply IH. intros y Hin. apply Hall. by right.
Qed.

Lemma first_occurrences_NoDup_id (values : list string) :
  NoDup values -> first_occurrences values = values.
Proof.
  induction values as [|v rest IH]; simpl; [done|].
  intros [Hnotin Hrest]%NoDup_cons. rewrite IH by done. f_equal.
  apply filter_all. by intros w Hin ->.
Qed.

(** X5. The de-duplication loop of [to_dict] returns the values it is
    given with every repetition after the first occurrence left out: the
    result has no value twice, has exactly the values given, keeps their
    order, and is the list given when that has no value twice. *)
Theorem deduplicate_keeps_first_occurrences (values : list string) :
  NoDup (deduplicate values [] [])
  /\ (forall v, v ∈ deduplicate values [] [] <-> v ∈ values)
  /\ deduplicate values [] [] `sublist_of` values
  /\ head (deduplicate values [] []) = head values
  /\ (NoDup values -> deduplicate values [] [] = values).
Proof.
  rewrite deduplicate_first_occurrences. split; [apply first_occurrences_NoDup|].
  split; [intros v; apply first_occurrences_elem|].
  split; [apply first_occurrences_sublist|].
  split; [by destruct values|apply first_occurrences_NoDup_id].
Qed.

(** ** The adapter run on the sample *)

(** The sample tables give the library's facts about spelling. *)
Lemma sample_own_spelling : own_spelling Sample.validKey Sample.spelling.
Proof.
  intros k Hvalid. unfold Sample.spelling.
  destruct (String.eqb_spec k "Iptc.Application2.0x0019") as [->|Ha];
    [split; reflexivity|].
  destruct (String.eqb_spec k "Iptc.Application2.0x005a") as [->|Hb];
    [split; reflexivity|].
  split; [done|].
  destruct (String.eqb_spec k "Iptc.Application2.0x0019"); [done|].
  by destruct (String.eqb_spec k "Iptc.Application2.0x005a").
Qed.

Lemma setIptcTag_replaces_records_witness :
  Sample.validKey Sample.City = true
  /\ Sample.spelling Sample.City = Sample.City
  /\ identifier_ordered Sample.ordered = true
  /\ setIptcTag Sample.validKey Sample.spelling Sample.repeatable Sample.City
       "Paris" (Sample.image Sample.ordered)
     = Returned tt
         {| iptcData := [ Datum Sample.Caption "At the pier";
                          Datum Sample.Keywords "sea";
                          Datum Sample.Keywords "sky";
                          Datum Sample.City "Paris" ];
            file := [ Datum Sample.Caption "At the pier";
                      Datum Sample.Keywords "sea";
                      Datum Sample.Keywords "sky";
                      Datum Sample.City "Paris" ];
            writes := 1 |}
  /\ records Sample.City
       [ Datum Sample.Caption "At the pier"; Datum Sample.Keywords "sea";
         Datum Sample.Keywords "sky"; Datum Sample.City "Paris" ]
     = [ Datum Sample.City "Paris" ].
Proof.
  split; [reflexivity|]. split; [reflexivity|]. split; [reflexivity|].
  exact (setIptcTag_replaces_records Sample.validKey Sample.spelling
           Sample.repeatable Sample.City "Paris" (Sample.image Sample.ordered)
           eq_refl eq_refl
           (contiguous_adjacent Sample.City Sample.ordered
              (identifier_ordered_contiguous Sample.ordered eq_refl))).
Defined.

(** C2 as stated fails.  The city given by the number of its data set is a
    key that the library accepts; the image holds a city and a keyword.
    [setIptcTag] finds the record of the city, whose key in the library's
    spelling is not the string given: the loop erases nothing, and [add]
    refuses a second city.  No record holds the value, and none stands
    under the key given.  And on an image whose keywords are not in one
    run, the second run stays: two records stand under the key. *)
Lemma setIptcTag_replaces_records_other_spelling :
  Opened Sample.validKey Sample.spelling (Sample.image Sample.one_keyword)
  = true
  /\ Sample.validKey Sample.City_by_number = true
  /\ setIptcTag Sample.validKey Sample.spelling Sample.repeatable
       Sample.City_by_number "Paris" (Sample.image Sample.one_keyword)
     = Returned tt
         {| iptcData :=
             [ Datum Sample.City "Oslo"; Datum Sample.Keywords "sea" ];
            file := [ Datum Sample.City "Oslo"; Datum Sample.Keywords "sea" ];
            writes := 1 |}
  /\ records Sample.City_by_number
       [ Datum Sample.City "Oslo"; Datum Sample.Keywords "sea" ] = []
  /\ Opened Sample.validKey Sample.spelling (Sample.image Sample.interleaved)
     = true
  /\ setIptcTag Sample.validKey Sample.spelling Sample.repeatable
       Sample.Keywords "v" (Sample.image Sample.interleaved)
     = Returned tt
         {| iptcData := [ Datum Sample.City "Oslo"; Datum Sample.Keywords "sky";
                          Datum Sample.Keywords "v" ];
            file := [ Datum Sample.City "Oslo"; Datum Sample.Keywords "sky";
                      Datum Sample.Keywords "v" ];
            writes := 1 |}
  /\ records Sample.Keywords
       [ Datum Sample.City "Oslo"; Datum Sample.Keywords "sky";
         Datum Sample.Keywords "v" ]
     = [ Datum Sample.Keywords "sky"; Datum Sample.Keywords "v" ].
Proof. repeat split; reflexivity. Qed.

Lemma setIptcTag_frame_witness :
  Sample.Keywords <> Sample.spelling Sample.City
  /\ records Sample.Keywords
       (iptcData (final_state
          (setIptcTag Sample.validKey Sample.spelling Sample.repeatable
             Sample.City "Paris" (Sample.image Sample.ordered))))
     = [ Datum Sample.Keywords "sea"; Datum Sample.Keywords "sky" ]
  /\ records Sample.Keywords
       (file (final_state
          (setIptcTag Sample.validKey Sample.spelling Sample.repeatable
             Sample.City "Paris" (Sample.image Sample.ordered))))
     = [ Datum Sample.Keywords "sea"; Datum Sample.Keywords "sky" ].
Proof.
  assert (Sample.Keywords <> Sample.spelling Sample.City) as Hne
    by discriminate.
  split; [exact Hne|].
  destruct (setIptcTag_frame Sample.validKey Sample.spelling Sample.repeatable
              Sample.City "Paris" Sample.Keywords (Sample.image Sample.ordered)
              (fun _ => Hne))
    as [Hmem Hfile].
  split; [exact Hmem|exact (Hfile eq_refl)].
Defined.

(** C3 as stated fails.  The keywords given by the number of their data
    set are a key other than the keywords by name; [setIptcTag] with the
    one appends a record whose key is the other.  And after a [from_dict]
    that threw at its second entry, the caption it had stored in memory is
    not in the file: [setIptcTag] on the city then writes it there. *)
Lemma setIptcTag_frame_other_spelling :
  Opened Sample.validKey Sample.spelling (Sample.image Sample.one_keyword)
  = true
  /\ Sample.validKey Sample.Keywords_by_number = true
  /\ String.eqb Sample.Keywords Sample.Keywords_by_number = false
  /\ records Sample.Keywords Sample.one_keyword
     = [ Datum Sample.Keywords "sea" ]
  /\ setIptcTag Sample.validKey Sample.spelling Sample.repeatable
       Sample.Keywords_by_number "v" (Sample.image Sample.one_keyword)
     = Returned tt
         {| iptcData := [ Datum Sample.City "Oslo"; Datum Sample.Keywords "sea";
                          Datum Sample.Keywords "v" ];
            file := [ Datum Sample.City "Oslo"; Datum Sample.Keywords "sea";
                      Datum Sample.Keywords "v" ];
            writes := 1 |}
  /\ records Sample.Keywords
       [ Datum Sample.City "Oslo"; Datum Sample.Keywords "sea";
         Datum Sample.Keywords "v" ]
     = [ Datum Sample.Keywords "sea"; Datum Sample.Keywords "v" ]
  /\ from_dict Sample.strictKey Sample.spelling Sample.repeatable
       [ ("iptc", [ ("Caption", PyStr "x"); ("Province-State", PyStr "y") ]) ]
       (Sample.image [ Datum Sample.City "Oslo" ])
     = Thrown (Exiv2Error "Iptc.Application2.Province-State")
         {| iptcData := [ Datum Sample.City "Oslo"; Datum Sample.Caption "x" ];
            file := [ Datum Sample.City "Oslo" ]; writes := 0 |}
  /\ setIptcTag Sample.strictKey Sample.spelling Sample.repeatable
       Sample.City "Paris"
       {| iptcData := [ Datum Sample.City "Oslo"; Datum Sample.Caption "x" ];
          file := [ Datum Sample.City "Oslo" ]; writes := 0 |}
     = Returned tt
         {| iptcData := [ Datum Sample.Caption "x"; Datum Sample.City "Paris" ];
            file := [ Datum Sample.Caption "x"; Datum Sample.City "Paris" ];
            writes := 1 |}
  /\ records Sample.Caption [ Datum Sample.City "Oslo" ] = []
  /\ records Sample.Caption
       [ Datum Sample.Caption "x"; Datum Sample.City "Paris" ]
     = [ Datum Sample.Caption "x" ].
Proof. repeat split; reflexivity. Qed.

Lemma getIptcTag_rejected_key_throws_witness :
  Sample.validKey "Keywords" = false
  /\ getIptcTag Sample.validKey Sample.spelling "Keywords"
       (Sample.image Sample.ordered)
     = Thrown (Exiv2Error "Keywords") (Sample.image Sample.ordered)
  /\ Sample.validKey Sample.Credit = true
  /\ records (Sample.spelling Sample.Credit) Sample.ordered = []
  /\ getIptcTag Sample.validKey Sample.spelling Sample.Credit
       (Sample.image Sample.ordered)
     = Returned "" (Sample.image Sample.ordered)
  /\ Sample.validKey Sample.City_by_number = true
  /\ first_value (Sample.spelling Sample.City_by_number) Sample.ordered
     = "Oslo"
  /\ getIptcTag Sample.validKey Sample.spelling Sample.City_by_number
       (Sample.image Sample.ordered)
     = Returned "Oslo" (Sample.image Sample.ordered).
Proof.
  split; [reflexivity|]. split.
  - exact (proj1 (getIptcTag_rejected_key_throws Sample.validKey
                    Sample.spelling "Keywords" (Sample.image Sample.ordered))
             eq_refl).
  - split; [reflexivity|]. split; [reflexivity|]. split.
    + exact (proj1 (proj2 (getIptcTag_rejected_key_throws Sample.validKey
                             Sample.spelling Sample.Credit
                             (Sample.image Sample.ordered)))
               eq_refl eq_refl).
    + split; [reflexivity|]. split; reflexivity.
Defined.

Lemma getIptcTag_after_setIptcTag_witness :
  Sample.validKey Sample.Keywords = true
  /\ Sample.spelling Sample.Keywords = Sample.Keywords
  /\ adjacent Sample.Keywords Sample.ordered = true
  /\ exists st',
       setIptcTag Sample.validKey Sample.spelling Sample.repeatable
         Sample.Keywords "fjord" (Sample.image Sample.ordered)
       = Returned tt st'
       /\ records Sample.Keywords (iptcData st')
          = [ Datum Sample.Keywords "fjord" ]
       /\ getIptcTag Sample.validKey Sample.spelling Sample.Keywords st'
          = Returned "fjord" st'.
Proof.
  split; [reflexivity|]. split; [reflexivity|]. split; [reflexivity|].
  exact (getIptcTag_after_setIptcTag Sample.validKey Sample.spelling
           Sample.repeatable Sample.Keywords "fjord"
           (Sample.image Sample.ordered) eq_refl eq_refl eq_refl).
Defined.

(** C10 as stated fails.  On an image whose keywords are not in one run,
    [setIptcTag] leaves the second run in place and [getIptcTag] returns
    its first value, not the value just written.  And with the city given
    by the number of its data set, a key that the library accepts,
    [setIptcTag] returns without a record of the value stored, and
    [getIptcTag] with the same key returns the city that was there. *)
Lemma getIptcTag_after_setIptcTag_interleaved :
  Opened Sample.validKey Sample.spelling (Sample.image Sample.interleaved)
  = true
  /\ bind (setIptcTag Sample.validKey Sample.spelling Sample.repeatable
            Sample.Keywords "v")
       (fun _ => getIptcTag Sample.validKey Sample.spelling Sample.Keywords)
       (Sample.image Sample.interleaved)
     = Returned "sky"
         {| iptcData := [ Datum Sample.City "Oslo";
                          Datum Sample.Keywords "sky";
                          Datum Sample.Keywords "v" ];
            file := [ Datum Sample.City "Oslo"; Datum Sample.Keywords "sky";
                      Datum Sample.Keywords "v" ];
            writes := 1 |}
  /\ Opened Sample.validKey Sample.spelling (Sample.image Sample.one_keyword)
     = true
  /\ Sample.validKey Sample.City_by_number = true
  /\ bind (setIptcTag Sample.validKey Sample.spelling Sample.repeatable
            Sample.City_by_number "Paris")
       (fun _ => getIptcTag Sample.validKey Sample.spelling
                   Sample.City_by_number)
       (Sample.image Sample.one_keyword)
     = Returned "Oslo"
         {| iptcData :=
             [ Datum Sample.City "Oslo"; Datum Sample.Keywords "sea" ];
            file := [ Datum Sample.City "Oslo"; Datum Sample.Keywords "sea" ];
            writes := 1 |}.
Proof. repeat split; reflexivity. Qed.

Lemma setIptcTag_twice_witness :
  Sample.validKey Sample.Keywords = true
  /\ Sample.spelling Sample.Keywords = Sample.Keywords
  /\ adjacent Sample.Keywords Sample.ordered = true
  /\ exists st1 st2,
       setIptcTag Sample.validKey Sample.spelling Sample.repeatable
         Sample.Keywords "fjord" (Sample.image Sample.ordered)
       = Returned tt st1
       /\ setIptcTag Sample.validKey Sample.spelling Sample.repeatable
            Sample.Keywords "fjord" st1 = Returned tt st2
       /\ records Sample.Keywords (iptcData st2)
          = [ Datum Sample.Keywords "fjord" ]
       /\ iptcData st2 = iptcData st1
       /\ file st2 = file st1.
Proof.
  split; [reflexivity|]. split; [reflexivity|]. split; [reflexivity|].
  exact (setIptcTag_twice Sample.validKey Sample.spelling Sample.repeatable
           Sample.Keywords "fjord" (Sample.image Sample.ordered)
           eq_refl eq_refl eq_refl).
Defined.

(** C6 as stated fails.  On an image whose keywords stand in three runs,
    two calls of [setIptcTag] with the same value leave three records
    under the key.  And with the keywords given by the number of their data
    set, a key that the library accepts, each call appends a record and
    erases none: the second call leaves a record more than the first, and
    no record stands under the key given. *)
Lemma setIptcTag_twice_scattered :
  Opened Sample.validKey Sample.spelling (Sample.image Sample.scattered)
  = true
  /\ bind (setIptcTag Sample.validKey Sample.spelling Sample.repeatable
            Sample.Keywords "v")
       (fun _ => setIptcTag Sample.validKey Sample.spelling Sample.repeatable
                   Sample.Keywords "v")
       (Sample.image Sample.scattered)
     = Returned tt
         {| iptcData := [ Datum Sample.City "Oslo"; Datum Sample.Credit "NTB";
                          Datum Sample.Keywords "pier";
                          Datum Sample.Keywords "v";
                          Datum Sample.Keywords "v" ];
            file := [ Datum Sample.City "Oslo"; Datum Sample.Credit "NTB";
                      Datum Sample.Keywords "pier"; Datum Sample.Keywords "v";
                      Datum Sample.Keywords "v" ];
            writes := 2 |}
  /\ length (records Sample.Keywords
               [ Datum Sample.City "Oslo"; Datum Sample.Credit "NTB";
                 Datum Sample.Keywords "pier"; Datum Sample.Keywords "v";
                 Datum Sample.Keywords "v" ]) = 3
  /\ Opened Sample.validKey Sample.spelling (Sample.image Sample.one_keyword)
     = true
  /\ Sample.validKey Sample.Keywords_by_number = true
  /\ setIptcTag Sample.validKey Sample.spelling Sample.repeatable
       Sample.Keywords_by_number "v" (Sample.image Sample.one_keyword)
     = Returned tt
         {| iptcData := [ Datum Sample.City "Oslo"; Datum Sample.Keywords "sea";
                          Datum Sample.Keywords "v" ];
            file := [ Datum Sample.City "Oslo"; Datum Sample.Keywords "sea";
                      Datum Sample.Keywords "v" ];
            writes := 1 |}
  /\ bind (setIptcTag Sample.validKey Sample.spelling Sample.repeatable
            Sample.Keywords_by_number "v")
       (fun _ => setIptcTag Sample.validKey Sample.spelling Sample.repeatable
                   Sample.Keywords_by_number "v")
       (Sample.image Sample.one_keyword)
     = Returned tt
         {| iptcData := [ Datum Sample.City "Oslo"; Datum Sample.Keywords "sea";
                          Datum Sample.Keywords "v"; Datum Sample.Keywords "v"
                              ];
            file := [ Datum Sample.City "Oslo"; Datum Sample.Keywords "sea";
                      Datum Sample.Keywords "v"; Datum Sample.Keywords "v" ];
            writes := 2 |}
  /\ records Sample.Keywords_by_number
       [ Datum Sample.City "Oslo"; Datum Sample.Keywords "sea";
         Datum Sample.Keywords "v"; Datum Sample.Keywords "v" ] = [].
Proof. repeat split; reflexivity. Qed.

Lemma from_dict_without_section_witness :
  map_find "iptc" ([] : stdmap (stdmap pyobject)) = None
  /\ from_dict Sample.validKey Sample.spelling Sample.repeatable []
       (Sample.image Sample.ordered)
     = Returned tt (Sample.image Sample.ordered).
Proof.
  split; [reflexivity|].
  exact (from_dict_without_section Sample.validKey Sample.spelling
      Sample.repeatable []
           (Sample.image Sample.ordered) eq_refl).
Defined.



Lemma to_dict_multiplicity_witness :
  Opened Sample.validKey Sample.spelling (Sample.image Sample.one_keyword) =
      true
  /\ exists iptc,
       to_dict Sample.validKey Sample.spelling Sample.tagName (Sample.image
           Sample.one_keyword)
       = Returned [ ("iptc", iptc) ] (Sample.image Sample.one_keyword)
       /\ map_find "Keywords" iptc = Some (PyList [ "sea" ])
       /\ map_find "City" iptc = Some (PyStr "Oslo").
Proof.
  split; [reflexivity|].
  destruct (to_dict_multiplicity Sample.validKey Sample.spelling Sample.tagName
              (Sample.image Sample.one_keyword) eq_refl)
    as (iptc & Hrun & _ & Hone).
  exists iptc. split; [exact Hrun|]. split.
  - apply (Hone "Keywords" "sea").
    + exists (Datum Sample.Keywords "sea"). split; [|reflexivity].
      right. left.
    + intros md Hin Hlab. cbn in Hin.
      apply elem_of_cons in Hin as [->|Hin]; [discriminate Hlab|].
      apply list_elem_of_singleton in Hin as ->. reflexivity.
  - apply (Hone "City" "Oslo").
    + exists (Datum Sample.City "Oslo"). split; [|reflexivity]. left.
    + intros md Hin Hlab. cbn in Hin.
      apply elem_of_cons in Hin as [->|Hin]; [reflexivity|].
      apply list_elem_of_singleton in Hin as ->. discriminate Hlab.
Defined.

Lemma to_dict_deduplicates_witness :
  Opened Sample.validKey Sample.spelling (Sample.image Sample.bylines) = true
  /\ Sample.bylines
     = [ Datum Sample.City "Oslo" ]
       ++ [ Datum Sample.Byline "Ann"; Datum Sample.Byline "Bob";
            Datum Sample.Byline "Ann" ]
       ++ [ Datum Sample.Caption "At the pier" ]
  /\ records Sample.Byline [ Datum Sample.City "Oslo" ] = []
  /\ records Sample.Byline [ Datum Sample.Caption "At the pier" ] = []
  /\ sole_key Sample.tagName Sample.Byline Sample.bylines = true
  /\ exists iptc,
       to_dict Sample.validKey Sample.spelling Sample.tagName (Sample.image
           Sample.bylines)
       = Returned [ ("iptc", iptc) ] (Sample.image Sample.bylines)
       /\ map_find "Byline" iptc = Some (PyList [ "Ann"; "Bob" ]).
Proof.
  do 5 (split; [reflexivity|]).
  apply (to_dict_deduplicates Sample.validKey Sample.spelling Sample.tagName
           (Sample.image Sample.bylines) Sample.Byline "Ann" "Bob"
           [ Datum Sample.City "Oslo" ]
           [ Datum Sample.Caption "At the pier" ]);
    try reflexivity.
  discriminate.
Defined.

(** C5 as stated fails.  The image holds the keywords sea, sky, sea in
    this order, with a city after the first: [to_dict] gathers the first run
    only and maps the label to the list of sea alone.  And when a later key
    has the same tag name, its entry replaces the list. *)
Lemma to_dict_deduplicates_first_run_only :
  Opened Sample.validKey Sample.spelling (Sample.image Sample.repeated) = true
  /\ map toString (records Sample.Keywords Sample.repeated)
     = [ "sea"; "sky"; "sea" ]
  /\ to_dict Sample.validKey Sample.spelling Sample.tagName (Sample.image
      Sample.repeated)
     = Returned
         [ ("iptc", [ ("City", PyStr "Oslo"); ("Keywords", PyList [ "sea" ]) ]) ]
         (Sample.image Sample.repeated)
  /\ Opened Sample.validKey Sample.spelling (Sample.image Sample.same_name) =
      true
  /\ map toString (records "Iptc.Application2.0x00f0" Sample.same_name)
     = [ "a"; "b"; "a" ]
  /\ label_of Sample.tagName "Iptc.Application2.0x00f0" = "0x00f0"
  /\ to_dict Sample.validKey Sample.spelling Sample.tagName (Sample.image
      Sample.same_name)
     = Returned [ ("iptc", [ ("0x00f0", PyStr "e") ]) ]
         (Sample.image Sample.same_name).
Proof. repeat split; reflexivity. Qed.

Lemma from_dict_to_dict_witness :
  dictionary_spelled Sample.validKey Sample.spelling = true
  /\ Opened Sample.validKey Sample.spelling (Sample.image Sample.with_writer)
     = true
  /\ contiguous Sample.with_writer = true
  /\ resolvable Sample.validKey
       [ ("Caption", PyStr "New"); ("City", PyList [ "Rome"; "Pisa" ]);
         ("Keywords", PyList [ "a"; "b"; "a" ]); ("Nope", PyStr "x") ] = true
  /\ faithful_labels Sample.tagName Sample.with_writer
       [ ("Caption", PyStr "New"); ("City", PyList [ "Rome"; "Pisa" ]);
         ("Keywords", PyList [ "a"; "b"; "a" ]); ("Nope", PyStr "x") ] = true
  /\ exists st' iptc,
       from_dict Sample.validKey Sample.spelling Sample.repeatable
         [ ("iptc", [ ("Caption", PyStr "New");
                      ("City", PyList [ "Rome"; "Pisa" ]);
                      ("Keywords", PyList [ "a"; "b"; "a" ]);
                      ("Nope", PyStr "x") ]) ]
         (Sample.image Sample.with_writer) = Returned tt st'
       /\ to_dict Sample.validKey Sample.spelling Sample.tagName st'
          = Returned [ ("iptc", iptc) ] st'
       /\ map_find "Caption" iptc = Some (PyStr "New")
       /\ map_find "City" iptc = Some (PyStr "Rome")
       /\ map_find "Keywords" iptc = Some (PyList [ "a"; "b" ])
       /\ map_find "Nope" iptc = None
       /\ is_Some (map_find "Writer" iptc).
Proof.
  do 5 (split; [reflexivity|]).
  destruct (from_dict_to_dict Sample.validKey Sample.spelling
              Sample.repeatable Sample.tagName
              [ ("iptc", [ ("Caption", PyStr "New");
                           ("City", PyList [ "Rome"; "Pisa" ]);
                           ("Keywords", PyList [ "a"; "b"; "a" ]);
                           ("Nope", PyStr "x") ]) ]
              [ ("Caption", PyStr "New"); ("City", PyList [ "Rome"; "Pisa" ]);
                ("Keywords", PyList [ "a"; "b"; "a" ]); ("Nope", PyStr "x") ]
              (Sample.image Sample.with_writer))
    as (st' & iptc & Hfrom & Hto & Hknown & Hnone & Hold); try reflexivity.
  { apply (bool_decide_unpack _). vm_compute. exact I. }
  exists st', iptc. split; [exact Hfrom|]. split; [exact Hto|].
  split; [|split; [|split; [|split]]].
  - apply (Hknown "Caption" (PyStr "New") Sample.Caption); [|reflexivity].
    left.
  - apply (Hknown "City" (PyList [ "Rome"; "Pisa" ]) Sample.City);
      [|reflexivity].
    right. left.
  - apply (Hknown "Keywords" (PyList [ "a"; "b"; "a" ]) Sample.Keywords);
      [|reflexivity].
    right. right. left.
  - apply Hnone.
    + intros md Hin Hlab. cbn in Hin.
      repeat (apply elem_of_cons in Hin as [->|Hin]; [discriminate Hlab|]).
      by apply elem_of_nil in Hin.
    + intros l valObj rawKey Hin Hraw Hlab.
      repeat (apply elem_of_cons in Hin as [[= -> ->]|Hin];
              [vm_compute in Hraw;
               first [discriminate Hraw
                     |injection Hraw as <-; discriminate Hlab]|]).
      by apply elem_of_nil in Hin.
  - apply (Hold (Datum Sample.Writer "me")).
    + do 4 right. left.
    + apply (bool_decide_unpack _). vm_compute. exact I.
Defined.

(** C1 as stated fails.  The image holds one record, of the writer; the
    section gives a by-line and keywords as scalars and a caption as a
    one-element list, all under labels of the dictionary.  In the document
    returned the by-line stands under the library's tag name, not under its
    label of the dictionary; the caption is a scalar; the keywords are a
    list; and the writer, a label the dictionary lacks, has an entry.  On
    the image whose keywords are not in one run, the keywords a, b come
    back with an old keyword before them. *)
Lemma from_dict_to_dict_changes_shape :
  Opened Sample.validKey Sample.spelling (Sample.image
      [ Datum Sample.Writer "me" ]) = true
  /\ map_find "Writer" humanToRawKey = None
  /\ bind
       (from_dict Sample.validKey Sample.spelling Sample.repeatable
          [ ("iptc", [ ("By-line", PyStr "Ann"); ("Caption", PyList [ "y" ]);
                       ("Keywords", PyStr "sea") ]) ])
       (fun _ => to_dict Sample.validKey Sample.spelling Sample.tagName)
       (Sample.image [ Datum Sample.Writer "me" ])
     = Returned
         [ ("iptc", [ ("Byline", PyStr "Ann"); ("Caption", PyStr "y");
                      ("Keywords", PyList [ "sea" ]);
                      ("Writer", PyStr "me") ]) ]
         {| iptcData := [ Datum Sample.Writer "me"; Datum Sample.Byline "Ann";
                          Datum Sample.Caption "y";
                          Datum Sample.Keywords "sea" ];
            file := [ Datum Sample.Writer "me"; Datum Sample.Byline "Ann";
                      Datum Sample.Caption "y"; Datum Sample.Keywords "sea" ];
            writes := 1 |}
  /\ Opened Sample.validKey Sample.spelling (Sample.image Sample.interleaved) =
      true
  /\ bind
       (from_dict Sample.validKey Sample.spelling Sample.repeatable
          [ ("iptc", [ ("Keywords", PyList [ "a"; "b" ]) ]) ])
       (fun _ => to_dict Sample.validKey Sample.spelling Sample.tagName)
       (Sample.image Sample.interleaved)
     = Returned
         [ ("iptc", [ ("City", PyStr "Oslo");
                      ("Keywords", PyList [ "sky"; "a"; "b" ]) ]) ]
         {| iptcData := [ Datum Sample.City "Oslo"; Datum Sample.Keywords "sky";
                          Datum Sample.Keywords "a"; Datum Sample.Keywords "b" ];
            file := [ Datum Sample.City "Oslo"; Datum Sample.Keywords "sky";
                      Datum Sample.Keywords "a"; Datum Sample.Keywords "b" ];
            writes := 1 |}.
Proof. repeat split; reflexivity. Qed.

(** ** Further runs on the sample *)

Lemma getIptcTag_first_record_witness :
  Sample.validKey Sample.Keywords_by_number = true
  /\ Sample.spelling Sample.Keywords_by_number = Sample.Keywords
  /\ final_state (getIptcTag Sample.validKey Sample.spelling
                    Sample.Keywords_by_number
                    (Sample.image Sample.interleaved))
     = Sample.image Sample.interleaved
  /\ getIptcTag Sample.validKey Sample.spelling Sample.Keywords_by_number
       (Sample.image Sample.interleaved)
     = Returned "sea" (Sample.image Sample.interleaved).
Proof.
  split; [reflexivity|]. split; [reflexivity|].
  destruct (getIptcTag_first_record Sample.validKey Sample.spelling
              Sample.Keywords_by_number (Sample.image Sample.interleaved))
    as [Hsame Hfirst].
  split; [exact Hsame|exact (Hfirst eq_refl)].
Defined.

Lemma to_dict_labels_witness :
  Opened Sample.validKey Sample.spelling (Sample.image Sample.ordered) = true
  /\ exists iptc,
       to_dict Sample.validKey Sample.spelling Sample.tagName (Sample.image
           Sample.ordered)
       = Returned [ ("iptc", iptc) ] (Sample.image Sample.ordered)
       /\ forall label,
            is_Some (map_find label iptc)
            <-> exists md, md ∈ Sample.ordered
                           /\ label_of Sample.tagName (key md) = label.
Proof.
  split; [reflexivity|].
  exact (to_dict_labels Sample.validKey Sample.spelling Sample.tagName
           (Sample.image Sample.ordered) eq_refl).
Defined.

Lemma to_dict_entries_witness :
  Opened Sample.validKey Sample.spelling (Sample.image Sample.repeated) = true
  /\ exists iptc,
       to_dict Sample.validKey Sample.spelling Sample.tagName (Sample.image
           Sample.repeated)
       = Returned [ ("iptc", iptc) ] (Sample.image Sample.repeated)
       /\ forall label v,
            map_find label iptc = Some v ->
            exists md uniq,
              md ∈ Sample.repeated
              /\ label_of Sample.tagName (key md) = label
              /\ NoDup uniq
              /\ (forall x, x ∈ uniq <->
                            x ∈ first_run_values (key md) Sample.repeated)
              /\ represents label uniq v.
Proof.
  split; [reflexivity|].
  exact (to_dict_entries Sample.validKey Sample.spelling Sample.tagName
           (Sample.image Sample.repeated) eq_refl).
Defined.

Lemma deduplicate_keeps_first_occurrences_witness :
  NoDup [ "sea"; "sky" ]
  /\ deduplicate [ "sea"; "sky" ] [] [] = [ "sea"; "sky" ]
  /\ deduplicate [ "sea"; "sky"; "sea"; "pier"; "sky" ] [] []
     `sublist_of` [ "sea"; "sky"; "sea"; "pier"; "sky" ].
Proof.
  assert (NoDup [ "sea"; "sky" ]) as Hnodup.
  { apply (bool_decide_unpack _). vm_compute. exact I. }
  split; [exact Hnodup|]. split.
  - exact (proj2 (proj2 (proj2 (proj2
             (deduplicate_keeps_first_occurrences [ "sea"; "sky" ]))))
             Hnodup).
  - exact (proj1 (proj2 (proj2
             (deduplicate_keeps_first_occurrences
                [ "sea"; "sky"; "sea"; "pier"; "sky" ])))).
Defined.

Lemma from_dict_scalar_is_setIptcTag_witness :
  map_find "City" humanToRawKey = Some Sample.City
  /\ from_dict Sample.validKey Sample.spelling Sample.repeatable
       [ ("iptc", [ ("City", PyStr "Paris") ]) ]
       (Sample.image Sample.interleaved)
     = setIptcTag Sample.validKey Sample.spelling Sample.repeatable Sample.City
         "Paris" (Sample.image Sample.interleaved).
Proof.
  split; [reflexivity|].
  exact (from_dict_scalar_is_setIptcTag Sample.validKey Sample.spelling
      Sample.repeatable
           [ ("iptc", [ ("City", PyStr "Paris") ]) ] "City" Sample.City
           "Paris" (Sample.image Sample.interleaved) eq_refl eq_refl).
Defined.

Lemma from_dict_rejected_key_witness :
  dictionary_spelled Sample.strictKey Sample.spelling = true
  /\ resolvable Sample.strictKey [ ("City", PyStr "Rome") ] = true
  /\ Sample.strictKey "Iptc.Application2.Province-State" = false
  /\ from_dict Sample.strictKey Sample.spelling Sample.repeatable
       [ ("iptc", [ ("City", PyStr "Rome"); ("Province-State", PyStr "Lazio");
                    ("Source", PyStr "NTB") ]) ]
       (Sample.image Sample.ordered)
     = Thrown (Exiv2Error "Iptc.Application2.Province-State")
         {| iptcData := [ Datum Sample.Caption "At the pier";
                          Datum Sample.Keywords "sea";
                          Datum Sample.Keywords "sky";
                          Datum Sample.City "Rome" ];
            file := Sample.ordered; writes := 0 |}.
Proof.
  split; [reflexivity|]. split; [reflexivity|]. split; [reflexivity|].
  exact (from_dict_rejected_key Sample.strictKey Sample.spelling
           Sample.repeatable
           [ ("iptc", [ ("City", PyStr "Rome");
                        ("Province-State", PyStr "Lazio");
                        ("Source", PyStr "NTB") ]) ]
           [ ("City", PyStr "Rome") ] [ ("Source", PyStr "NTB") ]
           "Province-State" "Iptc.Application2.Province-State"
           (PyStr "Lazio") (Sample.image Sample.ordered)
           eq_refl eq_refl eq_refl eq_refl eq_refl).
Defined.

Lemma from_dict_frame_witness :
  dictionary_spelled Sample.validKey Sample.spelling = true
  /\ (Sample.Keywords
      ∉ section_keys [ ("City", PyStr "Rome"); ("Nope", PyStr "x") ])
  /\ records Sample.Keywords
       (iptcData (final_state
          (from_dict Sample.validKey Sample.spelling Sample.repeatable
             [ ("iptc", [ ("City", PyStr "Rome"); ("Nope", PyStr "x") ]) ]
             (Sample.image Sample.interleaved))))
     = [ Datum Sample.Keywords "sea"; Datum Sample.Keywords "sky" ].
Proof.
  assert (Sample.Keywords
          ∉ section_keys [ ("City", PyStr "Rome"); ("Nope", PyStr "x") ])
    as Hfree.
  { apply (bool_decide_unpack _). vm_compute. exact I. }
  split; [reflexivity|]. split; [exact Hfree|].
  apply (from_dict_frame Sample.validKey Sample.spelling Sample.repeatable
           [ ("iptc", [ ("City", PyStr "Rome"); ("Nope", PyStr "x") ]) ]
           Sample.Keywords (Sample.image Sample.interleaved) eq_refl).
  intros section Hsec. injection Hsec as <-. exact Hfree.
Defined.

Lemma from_dict_records_witness :
  dictionary_spelled Sample.validKey Sample.spelling = true
  /\ resolvable Sample.validKey
    [ ("Caption", PyStr "New"); ("Keywords", PyList [ "a"; "b" ]);
      ("Nope", PyStr "x") ] = true
  /\ contiguous Sample.ordered = true
  /\ from_dict Sample.validKey Sample.spelling Sample.repeatable
       [ ("iptc", [ ("Caption", PyStr "New");
                    ("Keywords", PyList [ "a"; "b" ]); ("Nope", PyStr "x") ]) ]
       (Sample.image Sample.ordered)
     = Returned tt
         {| iptcData := [ Datum Sample.City "Oslo"; Datum Sample.Caption "New";
                          Datum Sample.Keywords "a"; Datum Sample.Keywords "b" ];
            file := [ Datum Sample.City "Oslo"; Datum Sample.Caption "New";
                      Datum Sample.Keywords "a"; Datum Sample.Keywords "b" ];
            writes := 1 |}.
Proof.
  split; [reflexivity|]. split; [reflexivity|]. split; [reflexivity|].
  apply (from_dict_records Sample.validKey Sample.spelling Sample.repeatable
           [ ("iptc", [ ("Caption", PyStr "New");
                        ("Keywords", PyList [ "a"; "b" ]);
                        ("Nope", PyStr "x") ]) ]
           [ ("Caption", PyStr "New"); ("Keywords", PyList [ "a"; "b" ]);
             ("Nope", PyStr "x") ]
           (Sample.image Sample.ordered)); try reflexivity.
  apply (bool_decide_unpack _). vm_compute. exact I.
Defined.

Lemma from_dict_twice_witness :
  dictionary_spelled Sample.validKey Sample.spelling = true
  /\ resolvable Sample.validKey
    [ ("Caption", PyStr "New"); ("Keywords", PyList [ "a"; "b" ]) ] = true
  /\ contiguous Sample.ordered = true
  /\ exists st1 st2,
       from_dict Sample.validKey Sample.spelling Sample.repeatable
         [ ("iptc", [ ("Caption", PyStr "New");
                      ("Keywords", PyList [ "a"; "b" ]) ]) ]
         (Sample.image Sample.ordered) = Returned tt st1
       /\ from_dict Sample.validKey Sample.spelling Sample.repeatable
            [ ("iptc", [ ("Caption", PyStr "New");
                         ("Keywords", PyList [ "a"; "b" ]) ]) ]
            st1 = Returned tt st2
       /\ iptcData st2 = iptcData st1
       /\ file st2 = file st1.
Proof.
  split; [reflexivity|]. split; [reflexivity|]. split; [reflexivity|].
  apply (from_dict_twice Sample.validKey Sample.spelling Sample.repeatable
           [ ("iptc", [ ("Caption", PyStr "New");
                        ("Keywords", PyList [ "a"; "b" ]) ]) ]
           [ ("Caption", PyStr "New"); ("Keywords", PyList [ "a"; "b" ]) ]
           (Sample.image Sample.ordered)); try reflexivity.
  apply (bool_decide_unpack _). vm_compute. exact I.
Defined.

Lemma writers_keep_contiguous_witness :
  contiguous Sample.ordered = true
  /\ Sample.spelling Sample.City = Sample.City
  /\ dictionary_spelled Sample.strictKey Sample.spelling = true
  /\ contiguous
       (iptcData (final_state
          (setIptcTag Sample.validKey Sample.spelling Sample.repeatable
             Sample.City "Paris" (Sample.image Sample.ordered)))) = true
  /\ contiguous
       (iptcData (final_state
          (from_dict Sample.strictKey Sample.spelling Sample.repeatable
             [ ("iptc", [ ("City", PyStr "Rome");
                          ("Province-State", PyStr "Lazio") ]) ]
             (Sample.image Sample.ordered)))) = true.
Proof.
  split; [reflexivity|]. split; [reflexivity|]. split; [reflexivity|].
  split.
  - exact (proj1 (writers_keep_contiguous Sample.validKey Sample.spelling
                    Sample.repeatable [] Sample.City "Paris"
                    (Sample.image Sample.ordered) eq_refl)
             (fun _ => eq_refl)).
  - exact (proj2 (writers_keep_contiguous Sample.strictKey Sample.spelling
                    Sample.repeatable
                    [ ("iptc", [ ("City", PyStr "Rome");
                                 ("Province-State", PyStr "Lazio") ]) ]
                    Sample.City "Paris" (Sample.image Sample.ordered)
                    eq_refl)
             eq_refl).
Defined.

Lemma writers_keep_Opened_witness :
  Opened Sample.validKey Sample.spelling (Sample.image Sample.interleaved)
  = true
  /\ Opened Sample.validKey Sample.spelling
       (final_state
          (setIptcTag Sample.validKey Sample.spelling Sample.repeatable
             Sample.Keywords_by_number "v" (Sample.image Sample.interleaved)))
     = true
  /\ Opened Sample.validKey Sample.spelling
       (final_state
          (from_dict Sample.validKey Sample.spelling Sample.repeatable
             [ ("iptc", [ ("Keywords", PyList [ "a"; "b" ]) ]) ]
             (Sample.image Sample.interleaved))) = true.
Proof.
  split; [reflexivity|].
  exact (writers_keep_Opened Sample.validKey Sample.spelling Sample.repeatable
           [ ("iptc", [ ("Keywords", PyList [ "a"; "b" ]) ]) ]
           Sample.Keywords_by_number "v" (Sample.image Sample.interleaved)
           sample_own_spelling eq_refl).
Defined.

Lemma getIptcTag_after_from_dict_witness :
  dictionary_spelled Sample.validKey Sample.spelling = true
  /\ resolvable Sample.validKey
    [ ("City", PyStr "Rome"); ("Keywords", PyList [ "a"; "b" ]) ] = true
  /\ contiguous Sample.ordered = true
  /\ exists st',
       from_dict Sample.validKey Sample.spelling Sample.repeatable
         [ ("iptc", [ ("City", PyStr "Rome");
                      ("Keywords", PyList [ "a"; "b" ]) ]) ]
         (Sample.image Sample.ordered) = Returned tt st'
       /\ getIptcTag Sample.validKey Sample.spelling Sample.Keywords st' =
           Returned "a" st'.
Proof.
  split; [reflexivity|]. split; [reflexivity|]. split; [reflexivity|].
  apply (getIptcTag_after_from_dict Sample.validKey Sample.spelling
      Sample.repeatable
           [ ("iptc", [ ("City", PyStr "Rome");
                        ("Keywords", PyList [ "a"; "b" ]) ]) ]
           [ ("City", PyStr "Rome"); ("Keywords", PyList [ "a"; "b" ]) ]
           "Keywords" Sample.Keywords (PyList [ "a"; "b" ])
           (Sample.image Sample.ordered)); try reflexivity.
  - apply (bool_decide_unpack _). vm_compute. exact I.
  - right. left.
Defined.

Lemma to_dict_after_setIptcTag_witness :
  Opened Sample.validKey Sample.spelling (Sample.image Sample.ordered) = true
  /\ contiguous Sample.ordered = true
  /\ Sample.validKey Sample.City = true
  /\ sole_under Sample.tagName
       (label_of Sample.tagName (Sample.spelling Sample.City)) Sample.City
       Sample.ordered = true
  /\ exists st' iptc,
       setIptcTag Sample.validKey Sample.spelling Sample.repeatable
         Sample.City "Paris" (Sample.image Sample.ordered) = Returned tt st'
       /\ to_dict Sample.validKey Sample.spelling Sample.tagName st'
          = Returned [ ("iptc", iptc) ] st'
       /\ map_find "City" iptc = Some (PyStr "Paris").
Proof.
  do 4 (split; [reflexivity|]).
  exact (to_dict_after_setIptcTag Sample.validKey Sample.spelling
           Sample.repeatable Sample.tagName Sample.City "Paris"
           (Sample.image Sample.ordered) sample_own_spelling
           eq_refl eq_refl eq_refl eq_refl).
Defined.

Lemma setIptcTag_first_run_witness :
  Sample.validKey Sample.Keywords = true
  /\ Sample.spelling Sample.Keywords = Sample.Keywords
  /\ Sample.repeatable Sample.Keywords = true
  /\ Sample.interleaved
     = [] ++ [ Datum Sample.Keywords "sea" ]
       ++ [ Datum Sample.City "Oslo"; Datum Sample.Keywords "sky" ]
  /\ setIptcTag Sample.validKey Sample.spelling Sample.repeatable
       Sample.Keywords "v" (Sample.image Sample.interleaved)
     = Returned tt
         {| iptcData := [ Datum Sample.City "Oslo"; Datum Sample.Keywords "sky";
                          Datum Sample.Keywords "v" ];
            file := [ Datum Sample.City "Oslo"; Datum Sample.Keywords "sky";
                      Datum Sample.Keywords "v" ];
            writes := 1 |}.
Proof.
  do 4 (split; [reflexivity|]).
  apply (setIptcTag_first_run Sample.validKey Sample.spelling Sample.repeatable
           Sample.Keywords "v" [] [ Datum Sample.Keywords "sea" ]
           [ Datum Sample.City "Oslo"; Datum Sample.Keywords "sky" ]
           (Sample.image Sample.interleaved)); try reflexivity.
  - discriminate.
  - intros md Hin. apply list_elem_of_singleton in Hin as ->. reflexivity.
  - intros md Hhead. injection Hhead as <-. discriminate.
Defined.

Lemma to_dict_last_key_wins_witness :
  Opened Sample.validKey Sample.spelling (Sample.image Sample.same_name) = true
  /\ last_key Sample.tagName "Iptc.Envelope.0x00f0" Sample.same_name = true
  /\ exists iptc,
       to_dict Sample.validKey Sample.spelling Sample.tagName (Sample.image
           Sample.same_name)
       = Returned [ ("iptc", iptc) ] (Sample.image Sample.same_name)
       /\ map_find "0x00f0" iptc = Some (PyStr "e").
Proof.
  split; [reflexivity|]. split; [reflexivity|].
  apply (to_dict_last_key_wins Sample.validKey Sample.spelling Sample.tagName
           "Iptc.Envelope.0x00f0" (Sample.image Sample.same_name));
    try reflexivity.
  discriminate.
Defined.
